(** * AI Castle: the tick-resolution engine

    A shallow embedding of [GameEngine] (src/engine.ts) and of the types it
    works on (src/types.ts): the action queue with its admission check, the
    priority ordering of the queue, apply-time validation, and the phases of
    one tick (actions, production, construction, upkeep, taxes, clamp).

    Numbers.  The state holds JavaScript numbers that are integers in every
    state the engine builds from integer parameters, so the state fields are
    [Z].  Doubles lose precision above 2^53; the embedding computes with
    exact integers.  The logger, the interval timer of the auto-tick and the
    informational log lines are not modelled; the rejection lines that
    [applyQueuedActions] hands to [logError] are. *)

From Stdlib Require Import ZArith List String Bool Lia.
From Stdlib Require Import Permutation Sorted DecimalString.
Import ListNotations.

Local Open Scope string_scope.
Local Open Scope Z_scope.

(** ** Values an action can carry *)

(** A field of [action.params] as a caller hands it in.  [Int z] is a number
    on which [Number.isInteger] answers true.  [NotInt neg] is anything else
    (a fraction, NaN, an infinity, [undefined] for a field that is absent);
    the only thing the engine observes of such a value before it refuses the
    action is whether [v < 0] holds, which is [neg]. *)
Inductive num : Type :=
| Int (z : Z)
| NotInt (neg : bool).

(** [v < 0] *)
Definition lt0 (v : num) : bool :=
  match v with
  | Int z => z <? 0
  | NotInt neg => neg
  end.

(** [Number.isInteger(v)] *)
Definition isInteger (v : num) : bool :=
  match v with
  | Int _ => true
  | NotInt _ => false
  end.

(** The integer a parameter stands for.  Apply-time code reads parameters
    through this.  A queue filled through [enqueueAction] only holds
    actions whose parameters are [Int] (see [admitted]), so the second
    branch is not the engine's arithmetic: every statement below that
    depends on the value of a parameter is about admitted actions or
    about parameters given as [Int]. *)
Definition valueOf (v : num) : Z :=
  match v with
  | Int z => z
  | NotInt _ => 0
  end.

(** [`${n}`] for an integer [n] (below 10^21 in size, where JavaScript
    still prints every digit). *)
Definition show (n : Z) : string := NilZero.string_of_int (Z.to_int n).

(** ** types.ts *)

Record JobCounts : Type := mkJobs {
  miners : Z;
  farmers : Z;
  lumberjacks : Z;
  builders : Z
}.

(** [UpgradeState]: the three optional fields are [None] when absent.  An
    absent [progress] behaves like NaN under [+= 1] and under [>=]. *)
Record UpgradeState : Type := mkUpgrade {
  active : bool;
  target : option Z;
  progress : option Z;
  woodRequired : option Z
}.

Record GameState : Type := mkState {
  turn : Z;
  gold : Z;
  food : Z;
  wood : Z;
  workers : Z;
  castleLevel : Z;
  jobs : JobCounts;
  upgradeInProgress : UpgradeState
}.

(** The union of the five parameter interfaces: [action.params] is read
    through a cast, so every field may be asked of every action; a field
    the caller did not send is [NotInt false]. *)
Record ActionParams : Type := mkParams {
  p_miners : num;
  p_farmers : num;
  p_lumberjacks : num;
  p_builders : num;
  p_count : num;
  p_amount : num
}.

(** [type] is the string the caller sent: the engine switches on it at run
    time and has a default case. *)
Record Action : Type := mkAction {
  type : string;
  params : ActionParams;
  requestedBy : option string;
  commandId : option string
}.

Record QueuedAction : Type := mkQueued {
  queued_action : Action;
  queuedAtTurn : Z
}.

Record ActionResult : Type := mkResult {
  queued : bool;
  applyAtTurn : option Z;
  result_error : option string
}.

Record AppliedActionLog : Type := mkApplied {
  log_type : string;
  log_params : ActionParams;
  requested_by : option string;
  command_id : option string
}.

Inductive ValidationResult : Type :=
| Valid
| Invalid (error : string).

Definition is_valid (r : ValidationResult) : bool :=
  match r with
  | Valid => true
  | Invalid _ => false
  end.

(** ** The engine object: the state and the queue *)

Record Engine : Type := mkEngine {
  state : GameState;
  actionQueue : list QueuedAction
}.

(** Field updates ([this.state.gold = ...] and the like). *)
Definition set_turn (v : Z) (s : GameState) : GameState :=
  mkState v (gold s) (food s) (wood s) (workers s) (castleLevel s)
          (jobs s) (upgradeInProgress s).
Definition set_gold (v : Z) (s : GameState) : GameState :=
  mkState (turn s) v (food s) (wood s) (workers s) (castleLevel s)
          (jobs s) (upgradeInProgress s).
Definition set_food (v : Z) (s : GameState) : GameState :=
  mkState (turn s) (gold s) v (wood s) (workers s) (castleLevel s)
          (jobs s) (upgradeInProgress s).
Definition set_wood (v : Z) (s : GameState) : GameState :=
  mkState (turn s) (gold s) (food s) v (workers s) (castleLevel s)
          (jobs s) (upgradeInProgress s).
Definition set_workers (v : Z) (s : GameState) : GameState :=
  mkState (turn s) (gold s) (food s) (wood s) v (castleLevel s)
          (jobs s) (upgradeInProgress s).
Definition set_castleLevel (v : Z) (s : GameState) : GameState :=
  mkState (turn s) (gold s) (food s) (wood s) (workers s) v
          (jobs s) (upgradeInProgress s).
Definition set_jobs (v : JobCounts) (s : GameState) : GameState :=
  mkState (turn s) (gold s) (food s) (wood s) (workers s) (castleLevel s)
          v (upgradeInProgress s).
Definition set_upgradeInProgress (v : UpgradeState) (s : GameState)
  : GameState :=
  mkState (turn s) (gold s) (food s) (wood s) (workers s) (castleLevel s)
          (jobs s) v.

(** ** The constructor *)

(** [Partial<GameState>]: every field optional. *)
Record PartialGameState : Type := mkPartial {
  o_turn : option Z;
  o_gold : option Z;
  o_food : option Z;
  o_wood : option Z;
  o_workers : option Z;
  o_castleLevel : option Z;
  o_jobs : option JobCounts;
  o_upgradeInProgress : option UpgradeState
}.

Definition orElse {A : Type} (o : option A) (d : A) : A :=
  match o with
  | Some v => v
  | None => d
  end.

(** The object literal of the constructor, before [...initialState]. *)
Definition defaultState : GameState :=
  mkState 0 25 18 0 5 0 (mkJobs 2 1 1 0) (mkUpgrade false None None None).

(** [{ ...defaults, ...initialState }]: a field of the override wins. *)
Definition spread (d : GameState) (p : PartialGameState) : GameState :=
  mkState (orElse (o_turn p) (turn d)) (orElse (o_gold p) (gold d))
          (orElse (o_food p) (food d)) (orElse (o_wood p) (wood d))
          (orElse (o_workers p) (workers d))
          (orElse (o_castleLevel p) (castleLevel d))
          (orElse (o_jobs p) (jobs d))
          (orElse (o_upgradeInProgress p) (upgradeInProgress d)).

(** [new GameEngine(logger, initialState?)]; the queue starts empty. *)
Definition constructor (initialState : option PartialGameState) : Engine :=
  match initialState with
  | None => mkEngine defaultState []
  | Some p => mkEngine (spread defaultState p) []
  end.

(** ** Admission: [validateActionParams] and [enqueueAction] *)

(** The case a [switch (action.type)] selects. *)
Inductive Kind : Type :=
| KAssignJobs | KHire | KFire | KBuyFood | KStartUpgrade | KOther.

Definition kindOf (t : string) : Kind :=
  if String.eqb t "AssignJobs" then KAssignJobs
  else if String.eqb t "Hire" then KHire
  else if String.eqb t "Fire" then KFire
  else if String.eqb t "BuyFood" then KBuyFood
  else if String.eqb t "StartUpgrade" then KStartUpgrade
  else KOther.

Definition validateActionParams (action : Action) : ValidationResult :=
  let p := params action in
  match kindOf (type action) with
  | KAssignJobs =>
      if lt0 (p_miners p) || lt0 (p_farmers p)
         || lt0 (p_lumberjacks p) || lt0 (p_builders p)
      then Invalid "Job counts must be non-negative integers"
      else if negb (isInteger (p_miners p)) || negb (isInteger (p_farmers p))
              || negb (isInteger (p_lumberjacks p))
              || negb (isInteger (p_builders p))
      then Invalid "Job counts must be integers"
      else Valid
  | KHire =>
      if lt0 (p_count p) || negb (isInteger (p_count p))
      then Invalid "Hire count must be a non-negative integer"
      else Valid
  | KFire =>
      if lt0 (p_count p) || negb (isInteger (p_count p))
      then Invalid "Fire count must be a non-negative integer"
      else Valid
  | KBuyFood =>
      if lt0 (p_amount p) || negb (isInteger (p_amount p))
      then Invalid "Buy food amount must be a non-negative integer"
      else Valid
  | KStartUpgrade => Valid
  | KOther => Invalid ("Unknown action type: " ++ type action)
  end.

Definition enqueueAction (action : Action) (e : Engine)
  : Engine * ActionResult :=
  match validateActionParams action with
  | Invalid err => (e, mkResult false None (Some err))
  | Valid =>
      let queuedAction := mkQueued action (turn (state e)) in
      (mkEngine (state e) (actionQueue e ++ [queuedAction])%list,
       mkResult true (Some (turn (state e) + 1)) None)
  end.

(** ** Ordering the queue: [sortActionQueue] *)

(** [priorityMap[a.type] || 999].  (A [type] that names a property every
    object inherits, such as "constructor", would read that property
    instead of 999; admission refuses such a type, so no queue holds
    one.) *)
Definition priority (a : QueuedAction) : Z :=
  match kindOf (type (queued_action a)) with
  | KHire => 1
  | KFire => 1
  | KAssignJobs => 2
  | KStartUpgrade => 3
  | KBuyFood => 4
  | KOther => 999
  end.

(** [Array.prototype.sort] with the comparator [priorityA - priorityB] is a
    stable sort (ECMAScript 2019).  A stable sort has one possible result,
    so any stable algorithm stands for it; insertion is the shortest.  The
    element being inserted came earlier in the queue than those already
    placed, hence it goes in front of its equals. *)
Fixpoint insertByPriority (a : QueuedAction) (l : list QueuedAction)
  : list QueuedAction :=
  match l with
  | [] => [a]
  | b :: l' =>
      if priority a <=? priority b then a :: b :: l'
      else b :: insertByPriority a l'
  end.

Fixpoint sortActionQueue (q : list QueuedAction) : list QueuedAction :=
  match q with
  | [] => []
  | a :: q' => insertByPriority a (sortActionQueue q')
  end.

(** ** Apply time: [validateActionAtApplyTime] and [applyAction] *)

Definition validateActionAtApplyTime (action : QueuedAction) (s : GameState)
  : ValidationResult :=
  let p := params (queued_action action) in
  match kindOf (type (queued_action action)) with
  | KAssignJobs =>
      let sum := valueOf (p_miners p) + valueOf (p_farmers p)
                 + valueOf (p_lumberjacks p) + valueOf (p_builders p) in
      if negb (sum =? workers s)
      then Invalid ("AssignJobs sum (" ++ show sum
                    ++ ") does not match current workers ("
                    ++ show (workers s) ++ ")")
      else Valid
  | KHire =>
      let cost := valueOf (p_count p) * 5 in
      if gold s <? cost
      then Invalid ("Not enough gold to hire " ++ show (valueOf (p_count p))
                    ++ " workers (need " ++ show cost ++ ", have "
                    ++ show (gold s) ++ ")")
      else Valid
  | KFire =>
      if workers s <? valueOf (p_count p)
      then Invalid ("Cannot fire " ++ show (valueOf (p_count p))
                    ++ " workers (only have " ++ show (workers s) ++ ")")
      else Valid
  | KBuyFood =>
      let cost := valueOf (p_amount p) in
      if gold s <? cost
      then Invalid ("Not enough gold to buy " ++ show (valueOf (p_amount p))
                    ++ " food (need " ++ show cost ++ ", have "
                    ++ show (gold s) ++ ")")
      else Valid
  | KStartUpgrade =>
      if active (upgradeInProgress s)
      then Invalid "An upgrade is already in progress"
      else
        let cost := 10 * (castleLevel s + 1) in
        if gold s <? cost
        then Invalid ("Not enough gold to start upgrade (need " ++ show cost
                      ++ ", have " ++ show (gold s) ++ ")")
        else Valid
  | KOther => Valid
  end.

Definition applyAction (action : QueuedAction) (s : GameState) : GameState :=
  let p := params (queued_action action) in
  match kindOf (type (queued_action action)) with
  | KAssignJobs =>
      set_jobs (mkJobs (valueOf (p_miners p)) (valueOf (p_farmers p))
                       (valueOf (p_lumberjacks p)) (valueOf (p_builders p))) s
  | KHire =>
      let cost := valueOf (p_count p) * 5 in
      let s1 := set_gold (gold s - cost) s in
      set_workers (workers s1 + valueOf (p_count p)) s1
  | KFire =>
      set_workers (workers s - valueOf (p_count p)) s
  | KBuyFood =>
      let cost := valueOf (p_amount p) in
      let s1 := set_gold (gold s - cost) s in
      set_food (food s1 + valueOf (p_amount p)) s1
  | KStartUpgrade =>
      let cost := 10 * (castleLevel s + 1) in
      let woodRequired := 12 * (castleLevel s + 1) in
      let s1 := set_gold (gold s - cost) s in
      set_upgradeInProgress
        (mkUpgrade true (Some (castleLevel s1 + 1)) (Some 0)
                   (Some woodRequired)) s1
  | KOther => s
  end.

(** ** [applyQueuedActions] *)

(** What the loop over the sorted queue leaves: the state, the entries
    pushed on [applied], and the lines given to [logger.logError]. *)
Record ApplyOutcome : Type := mkOutcome {
  st : GameState;
  applied : list AppliedActionLog;
  rejected : list string
}.

Definition appliedEntry (a : QueuedAction) : AppliedActionLog :=
  mkApplied (type (queued_action a)) (params (queued_action a))
            (requestedBy (queued_action a)) (commandId (queued_action a)).

Definition rejectionLine (a : QueuedAction) (err : string) : string :=
  "Action " ++ type (queued_action a) ++ " rejected: " ++ err.

(** The [for ... of sortedQueue] loop: validate against the state as it
    stands, [continue] on a failure, otherwise apply and record. *)
Fixpoint applyEach (q : list QueuedAction) (s : GameState) : ApplyOutcome :=
  match q with
  | [] => mkOutcome s [] []
  | a :: q' =>
      match validateActionAtApplyTime a s with
      | Invalid err =>
          let r := applyEach q' s in
          mkOutcome (st r) (applied r) (rejectionLine a err :: rejected r)
      | Valid =>
          let r := applyEach q' (applyAction a s) in
          mkOutcome (st r) (appliedEntry a :: applied r) (rejected r)
      end
  end.

(** The method: sort, run the loop, clear the queue, return [applied]. *)
Definition applyQueuedActions (e : Engine)
  : Engine * list AppliedActionLog :=
  let r := applyEach (sortActionQueue (actionQueue e)) (state e) in
  (mkEngine (st r) [], applied r).

(** ** The phases after the actions *)

Definition applyProduction (s : GameState) : GameState :=
  let goldProduced := miners (jobs s) * 2 in
  let foodProduced := farmers (jobs s) * 3 in
  let woodProduced := lumberjacks (jobs s) * 1 in
  let s1 := set_gold (gold s + goldProduced) s in
  let s2 := set_food (food s1 + foodProduced) s1 in
  set_wood (wood s2 + woodProduced) s2.

(** [upgrade.progress! += 1] on the upgrade object the state points to. *)
Definition addProgress (u : UpgradeState) : UpgradeState :=
  mkUpgrade (active u) (target u)
            (option_map (fun p => p + 1) (progress u)) (woodRequired u).

(** The body of the builders loop. *)
Definition buildOnce (s : GameState) : GameState :=
  if 0 <? wood s
  then set_upgradeInProgress (addProgress (upgradeInProgress s))
                             (set_wood (wood s - 1) s)
  else s.

Fixpoint buildLoop (n : nat) (s : GameState) : GameState :=
  match n with
  | O => s
  | S n' => buildLoop n' (buildOnce s)
  end.

(** [a! >= b!]; false when either side is absent. *)
Definition geq (a b : option Z) : bool :=
  match a, b with
  | Some x, Some y => y <=? x
  | _, _ => false
  end.

Definition applyConstruction (s : GameState) : GameState :=
  if negb (active (upgradeInProgress s)) then s
  else
    (* for (let i = 0; i < builders; i++) *)
    let s1 := buildLoop (Z.to_nat (builders (jobs s))) s in
    let upgrade := upgradeInProgress s1 in
    if geq (progress upgrade) (woodRequired upgrade)
    then
      let s2 := set_castleLevel (castleLevel s1 + 1) s1 in
      let s3 := set_gold (gold s2 + 5) s2 in
      set_upgradeInProgress (mkUpgrade false None None None) s3
    else s1.

(** [Math.ceil(n / 2)] for an integer [n]. *)
Definition ceilHalf (n : Z) : Z := - ((- n) / 2).

Definition reduceJobsByPriority (workersToRemove : Z) (s : GameState)
  : GameState :=
  let remaining := workersToRemove in
  let j := jobs s in
  let buildersToRemove := Z.min remaining (builders j) in
  let j := mkJobs (miners j) (farmers j) (lumberjacks j)
                  (builders j - buildersToRemove) in
  let remaining := remaining - buildersToRemove in
  let '(j, remaining) :=
    if 0 <? remaining
    then
      let lumberjacksToRemove := Z.min remaining (lumberjacks j) in
      (mkJobs (miners j) (farmers j) (lumberjacks j - lumberjacksToRemove)
              (builders j),
       remaining - lumberjacksToRemove)
    else (j, remaining) in
  let '(j, remaining) :=
    if 0 <? remaining
    then
      let farmersToRemove := Z.min remaining (farmers j) in
      (mkJobs (miners j) (farmers j - farmersToRemove) (lumberjacks j)
              (builders j),
       remaining - farmersToRemove)
    else (j, remaining) in
  let j :=
    if 0 <? remaining
    then
      let minersToRemove := Z.min remaining (miners j) in
      mkJobs (miners j - minersToRemove) (farmers j) (lumberjacks j)
             (builders j)
    else j in
  set_jobs j s.

Definition applyUpkeep (s : GameState) : GameState :=
  let foodNeeded := workers s in
  let s1 := set_food (food s - foodNeeded) s in
  if food s1 <? 0
  then
    let shortage := - food s1 in
    let s2 := set_food 0 s1 in
    let workersLost := ceilHalf shortage in
    let s3 := set_workers (Z.max 0 (workers s2 - workersLost)) s2 in
    if 0 <? workersLost then reduceJobsByPriority workersLost s3 else s3
  else s1.

Definition applyTaxes (s : GameState) : GameState :=
  let taxIncome := 1 * castleLevel s in
  if 0 <? taxIncome then set_gold (gold s + taxIncome) s else s.

Definition clampResources (s : GameState) : GameState :=
  let s1 := set_gold (Z.max 0 (gold s)) s in
  let s2 := set_food (Z.max 0 (food s1)) s1 in
  set_wood (Z.max 0 (wood s2)) s2.

(** ** [tick] *)

(** The state on which [clampResources] is called: steps 1 to 6. *)
Definition beforeClamp (e : Engine) : GameState :=
  let nextTurn := turn (state e) + 1 in
  let s1 := state (fst (applyQueuedActions e)) in
  let s2 := set_turn nextTurn s1 in
  let s3 := applyProduction s2 in
  let s4 := applyConstruction s3 in
  let s5 := applyUpkeep s4 in
  applyTaxes s5.

Definition tick (e : Engine) : Engine :=
  mkEngine (clampResources (beforeClamp e))
           (actionQueue (fst (applyQueuedActions e))).

(** What one tick accepted, and the rejection lines it logged. *)
Definition tickApplied (e : Engine) : list AppliedActionLog :=
  snd (applyQueuedActions e).

Definition tickRejected (e : Engine) : list string :=
  rejected (applyEach (sortActionQueue (actionQueue e)) (state e)).

(** ** Reachable engines *)

(** What callers can do to an engine built without an override: enqueue any
    action, advance one tick (by hand or from the timer). *)
Inductive reachable : Engine -> Prop :=
| reach_new : reachable (constructor None)
| reach_enqueue (a : Action) (e : Engine) :
    reachable e -> reachable (fst (enqueueAction a e))
| reach_tick (e : Engine) :
    reachable e -> reachable (tick e).

(** * Vocabulary of the statements *)

(** A parameter that is an integer and not negative. *)
Definition natural (v : num) : Prop := exists z, v = Int z /\ 0 <= z.

(** The syntactic condition in the words of the specification: a known
    kind, and each numeric parameter of that kind an integer [>= 0]. *)
Definition syntacticallyValid (a : Action) : Prop :=
  (type a = "AssignJobs" /\
     natural (p_miners (params a)) /\ natural (p_farmers (params a)) /\
     natural (p_lumberjacks (params a)) /\ natural (p_builders (params a))) \/
  (type a = "Hire" /\ natural (p_count (params a))) \/
  (type a = "Fire" /\ natural (p_count (params a))) \/
  (type a = "BuyFood" /\ natural (p_amount (params a))) \/
  type a = "StartUpgrade".

(** A queue entry that went through admission. *)
Definition admitted (a : QueuedAction) : Prop :=
  syntacticallyValid (queued_action a).

Definition jobsSum (j : JobCounts) : Z :=
  miners j + farmers j + lumberjacks j + builders j.

Definition jobsNonneg (j : JobCounts) : Prop :=
  0 <= miners j /\ 0 <= farmers j /\ 0 <= lumberjacks j /\ 0 <= builders j.

Definition resourcesNonneg (s : GameState) : Prop :=
  0 <= gold s /\ 0 <= food s /\ 0 <= wood s.

(** Every worker has a job: the counts are non-negative and add up to the
    workforce. *)
Definition staffed (s : GameState) : Prop :=
  jobsNonneg (jobs s) /\ jobsSum (jobs s) = workers s.

(** What holds of every engine between two ticks. *)
Definition sound (e : Engine) : Prop :=
  resourcesNonneg (state e) /\ jobsNonneg (jobs (state e)) /\
  Forall admitted (actionQueue e).

(** The ordering the comparator of [sortActionQueue] induces. *)
Definition byPriority (a b : QueuedAction) : Prop :=
  priority a <= priority b.

(** The entries of one priority class, in the order they have in [q]. *)
Definition ofPriority (p : Z) (q : list QueuedAction) : list QueuedAction :=
  filter (fun a => priority a =? p) q.

(** The step of the loop of [applyQueuedActions] on one entry. *)
Definition applyIfValid (a : QueuedAction) (s : GameState) : GameState :=
  if is_valid (validateActionAtApplyTime a s) then applyAction a s else s.

(** ** Actions as the command line builds them (src/cli.ts) *)

Definition absent : num := NotInt false.

Definition assignJobs (m f l b : Z) : Action :=
  mkAction "AssignJobs"
           (mkParams (Int m) (Int f) (Int l) (Int b) absent absent)
           (Some "CLI") None.

Definition hire (count : Z) : Action :=
  mkAction "Hire" (mkParams absent absent absent absent (Int count) absent)
           (Some "CLI") None.

Definition fire (count : Z) : Action :=
  mkAction "Fire" (mkParams absent absent absent absent (Int count) absent)
           (Some "CLI") None.

Definition buyFood (amount : Z) : Action :=
  mkAction "BuyFood"
           (mkParams absent absent absent absent absent (Int amount))
           (Some "CLI") None.

Definition startUpgrade : Action :=
  mkAction "StartUpgrade"
           (mkParams absent absent absent absent absent absent)
           (Some "CLI") None.

(** [enqueueAction] followed by nothing else: the engine it leaves. *)
Definition submit (a : Action) (e : Engine) : Engine :=
  fst (enqueueAction a e).

(** An [AssignJobs] was accepted in the tick that starts from [e]. *)
Definition assignJobsAccepted (e : Engine) : Prop :=
  exists x, In x (tickApplied e) /\ log_type x = "AssignJobs".

(** No [Hire] and no [Fire] was accepted in the tick that starts from [e]. *)
Definition workforceUntouched (e : Engine) : Prop :=
  forall x, In x (tickApplied e) ->
            log_type x <> "Hire" /\ log_type x <> "Fire".

(** What a job of [count] places gives up when [remaining] places are
    still to go: nothing once none remain, otherwise as many as remain and
    no more than it has. *)
Definition takeFrom (remaining count : Z) : Z :=
  if 0 <? remaining then Z.min remaining count else 0.

(** * The rest of the engine, and its callers *)

(** ** The two log records of a tick ([tick], [logCurrentState]) *)

Record TurnAppliedLog : Type := mkTurnApplied {
  applied_turn : Z;
  applied_actions : list AppliedActionLog
}.

Record UpgradeLog : Type := mkUpgradeLog {
  logged_active : bool;
  logged_progress : option Z;
  logged_woodRequired : option Z
}.

Record StateLog : Type := mkStateLog {
  logged_gold : Z;
  logged_food : Z;
  logged_wood : Z;
  logged_workers : Z;
  logged_castleLevel : Z;
  logged_jobs : JobCounts;
  logged_upgrade : UpgradeLog
}.

Record TurnStateLog : Type := mkTurnState {
  state_turn : Z;
  logged_state : StateLog
}.

(** The record [logCurrentState] hands to [logger.logState]. *)
Definition logCurrentState (s : GameState) : TurnStateLog :=
  mkTurnState (turn s)
    (mkStateLog (gold s) (food s) (wood s) (workers s) (castleLevel s)
       (jobs s)
       (mkUpgradeLog (active (upgradeInProgress s))
                     (progress (upgradeInProgress s))
                     (woodRequired (upgradeInProgress s)))).

(** What one [tick] gives the logger: first the applied-actions record,
    stamped with [nextTurn], then the state record of step 8. *)
Definition tickLogs (e : Engine) : TurnAppliedLog * TurnStateLog :=
  let nextTurn := turn (state e) + 1 in
  (mkTurnApplied nextTurn (snd (applyQueuedActions e)),
   logCurrentState (state (tick e))).

(** [n] calls of [tick] in a row. *)
Fixpoint ticks (n : nat) (e : Engine) : Engine :=
  match n with
  | O => e
  | S n' => ticks n' (tick e)
  end.

(** Several [enqueueAction] calls in a row, results dropped. *)
Definition submitAll (l : list Action) (e : Engine) : Engine :=
  fold_left (fun e' a => submit a e') l e.

(** The action a log entry records. *)
Definition actionOfLog (x : AppliedActionLog) : Action :=
  mkAction (log_type x) (log_params x) (requested_by x) (command_id x).

(** A fresh engine put in state [s], to which the actions of an
    applied-actions record are submitted again, in the order of the
    record. *)
Definition replay (s : GameState) (log : TurnAppliedLog) : Engine :=
  submitAll (map actionOfLog (applied_actions log)) (mkEngine s []).

(** The entries of [q] that the loop of [applyQueuedActions] accepts when
    it starts from [s], in the order it meets them. *)
Fixpoint acceptedOf (q : list QueuedAction) (s : GameState)
  : list QueuedAction :=
  match q with
  | [] => []
  | a :: q' =>
      match validateActionAtApplyTime a s with
      | Valid => a :: acceptedOf q' (applyAction a s)
      | Invalid _ => acceptedOf q' s
      end
  end.

(** The worth of a state in gold: a worker costs 5 to hire, a unit of food
    costs 1. *)
Definition worth (s : GameState) : Z := gold s + food s + 5 * workers s.

(** The upgrade record as the engine builds it: inactive with no detail,
    or active towards the next level with its wood requirement and a
    progress short of it. *)
Definition upgradeWellFormed (s : GameState) : Prop :=
  match upgradeInProgress s with
  | mkUpgrade false None None None => True
  | mkUpgrade true (Some t) (Some p) (Some w) =>
      t = castleLevel s + 1 /\ w = 12 * (castleLevel s + 1) /\ 0 <= p < w
  | _ => False
  end.

Definition wellFormed (s : GameState) : Prop :=
  0 <= turn s /\ 0 <= workers s /\ 0 <= castleLevel s /\
  upgradeWellFormed s.

(** ** Auto-tick ([startAutoTick], [stopAutoTick], [isAutoTickEnabled],
    [shutdown]) *)

(** The interval timers of the event loop that this engine registered:
    the handles still running and the next handle [setInterval] gives out.
    When a timer fires is not modelled, only that it is registered. *)
Record Timers : Type := mkTimers {
  running : list nat;
  nextHandle : nat
}.

Definition setInterval (t : Timers) : nat * Timers :=
  (nextHandle t, mkTimers (nextHandle t :: running t) (S (nextHandle t))).

Definition clearInterval (h : nat) (t : Timers) : Timers :=
  mkTimers (remove Nat.eq_dec h (running t)) (nextHandle t).

(** The engine object with its two auto-tick fields, and the timers. *)
Record Runtime : Type := mkRuntime {
  engine : Engine;
  tickInterval : option nat;
  autoTickEnabled : bool;
  timers : Timers
}.

(** The fields as the class initialises them. *)
Definition newRuntime : Runtime :=
  mkRuntime (constructor None) None false (mkTimers [] 0).

Definition startAutoTick (r : Runtime) : Runtime :=
  if autoTickEnabled r then r
  else
    let '(h, t) := setInterval (timers r) in
    mkRuntime (engine r) (Some h) true t.

Definition stopAutoTick (r : Runtime) : Runtime :=
  match tickInterval r with
  | Some h => mkRuntime (engine r) None false (clearInterval h (timers r))
  | None => r
  end.

Definition isAutoTickEnabled (r : Runtime) : bool := autoTickEnabled r.

(** [shutdown]: [stopAutoTick], then the logger is closed. *)
Definition shutdown (r : Runtime) : Runtime := stopAutoTick r.

(** The callback of the interval, [() => this.tick()], run for handle [h]
    if that timer is still registered. *)
Definition timerFires (h : nat) (r : Runtime) : Runtime :=
  if existsb (Nat.eqb h) (running (timers r))
  then mkRuntime (tick (engine r)) (tickInterval r) (autoTickEnabled r)
                 (timers r)
  else r.

Definition onEngine (f : Engine -> Engine) (r : Runtime) : Runtime :=
  mkRuntime (f (engine r)) (tickInterval r) (autoTickEnabled r) (timers r).

(** What can happen to the engine object of a front end. *)
Inductive reachableRuntime : Runtime -> Prop :=
| run_new : reachableRuntime newRuntime
| run_enqueue (a : Action) (r : Runtime) :
    reachableRuntime r -> reachableRuntime (onEngine (submit a) r)
| run_tick (r : Runtime) :
    reachableRuntime r -> reachableRuntime (onEngine tick r)
| run_start (r : Runtime) :
    reachableRuntime r -> reachableRuntime (startAutoTick r)
| run_stop (r : Runtime) :
    reachableRuntime r -> reachableRuntime (stopAutoTick r)
| run_fire (h : nat) (r : Runtime) :
    reachableRuntime r -> reachableRuntime (timerFires h r).

Record ToolOutput : Type := mkOutput {
  success : bool;
  message : string
}.

(** The cases "start_auto_tick" and "stop_auto_tick" of the tool
    dispatcher (the second server of src/mcp-server-http.ts). *)
Definition callStartAutoTick (r : Runtime) : Runtime * ToolOutput :=
  let wasEnabled := isAutoTickEnabled r in
  let r' := startAutoTick r in
  let isEnabled := isAutoTickEnabled r' in
  (r', mkOutput (negb wasEnabled && isEnabled)
                (if wasEnabled then "Auto-tick is already running"
                 else "Auto-tick started (1 tick/second)")).

Definition callStopAutoTick (r : Runtime) : Runtime * ToolOutput :=
  let wasEnabled := isAutoTickEnabled r in
  let r' := stopAutoTick r in
  let isEnabled := isAutoTickEnabled r' in
  (r', mkOutput (wasEnabled && negb isEnabled)
                (if wasEnabled then "Auto-tick stopped"
                 else "Auto-tick was not running")).

(** ** The REST route [POST /actions] (server.ts) *)





(** ** The enqueue tools registered with [registerTool]
    (src/mcp-server-http.ts) *)

(** The handlers receive arguments that the declared input schema has let
    through; the numbers are taken as integers here and their sign is a
    hypothesis where it matters.  Each handler drops the result of
    [enqueueAction]. *)
Definition toolEnqueueHire (count : Z) (requested_by : string)
           (command_id : option string) (e : Engine) : Engine * ToolOutput :=
  let action :=
    mkAction "Hire"
             (mkParams absent absent absent absent (Int count) absent)
             (Some requested_by) command_id in
  (fst (enqueueAction action e),
   mkOutput true ("Enqueued hire action: " ++ show count ++ " workers")).

Definition toolEnqueueFire (count : Z) (requested_by : string)
           (command_id : option string) (e : Engine) : Engine * ToolOutput :=
  let action :=
    mkAction "Fire"
             (mkParams absent absent absent absent (Int count) absent)
             (Some requested_by) command_id in
  (fst (enqueueAction action e),
   mkOutput true ("Enqueued fire action: " ++ show count ++ " workers")).

Definition toolEnqueueBuyFood (amount : Z) (requested_by : string)
           (command_id : option string) (e : Engine) : Engine * ToolOutput :=
  let action :=
    mkAction "BuyFood"
             (mkParams absent absent absent absent absent (Int amount))
             (Some requested_by) command_id in
  (fst (enqueueAction action e),
   mkOutput true ("Enqueued buy food action: " ++ show amount ++ " food")).

Definition toolEnqueueAssignJobs (m f l b : Z) (requested_by : string)
           (command_id : option string) (e : Engine) : Engine * ToolOutput :=
  let action :=
    mkAction "AssignJobs"
             (mkParams (Int m) (Int f) (Int l) (Int b) absent absent)
             (Some requested_by) command_id in
  (fst (enqueueAction action e),
   mkOutput true "Enqueued assign jobs action").

Definition toolEnqueueStartUpgrade (requested_by : string)
           (command_id : option string) (e : Engine) : Engine * ToolOutput :=
  let action :=
    mkAction "StartUpgrade"
             (mkParams absent absent absent absent absent absent)
             (Some requested_by) command_id in
  (fst (enqueueAction action e),
   mkOutput true "Enqueued start upgrade action").

(** The two auto-tick fields and the timers agree: the running timers
    are exactly the one the engine holds a handle to, if any, and the flag
    says whether there is one. *)
Definition timerConsistent (r : Runtime) : Prop :=
  running (timers r)
  = match tickInterval r with
    | Some h => [h]
    | None => []
    end /\
  autoTickEnabled r
  = match tickInterval r with
    | Some _ => true
    | None => false
    end.


(** * Proof tools *)

Ltac break_state s :=
  let j := fresh "j" in
  let u := fresh "u" in
  destruct s as [? ? ? ? ? ? j u]; destruct j; destruct u.

(** Turn the boolean tests of the code into arithmetic facts. *)
Ltac split_tests :=
  repeat match goal with
  | |- context [?a <? ?b] => destruct (Z.ltb_spec a b)
  | |- context [?a <=? ?b] => destruct (Z.leb_spec a b)
  | |- context [?a =? ?b] => destruct (Z.eqb_spec a b)
  end.

(** Reduce record projections and field updates, and nothing else. *)
Ltac simpl_state :=
  cbn [turn gold food wood workers castleLevel jobs upgradeInProgress
       miners farmers lumberjacks builders
       active target progress woodRequired
       set_turn set_gold set_food set_wood set_workers set_castleLevel
       set_jobs set_upgradeInProgress
       is_valid st applied rejected state actionQueue fst snd negb] in *.

(** * Properties *)

(** ** Basic facts *)

Lemma natural_tests (v : num) :
  lt0 v || negb (isInteger v) = false <-> natural v.
Proof.
  destruct v as [z | neg]; simpl.
  - rewrite orb_false_r, Z.ltb_ge. split.
    + intros H. exists z. split; [reflexivity | exact H].
    + intros (z' & E & H). injection E as ->. exact H.
  - split.
    + rewrite orb_true_r. discriminate.
    + intros (z & E & _). discriminate E.
Qed.

Lemma natural_valueOf (v : num) : natural v -> 0 <= valueOf v.
Proof. intros (z & -> & H). exact H. Qed.

(** The five kinds are told apart by their names, and nothing else is one
    of them. *)
Lemma kindOf_cases (t : string) :
  (t = "AssignJobs" /\ kindOf t = KAssignJobs) \/
  (t = "Hire" /\ kindOf t = KHire) \/
  (t = "Fire" /\ kindOf t = KFire) \/
  (t = "BuyFood" /\ kindOf t = KBuyFood) \/
  (t = "StartUpgrade" /\ kindOf t = KStartUpgrade) \/
  (t <> "AssignJobs" /\ t <> "Hire" /\ t <> "Fire" /\ t <> "BuyFood" /\
   t <> "StartUpgrade" /\ kindOf t = KOther).
Proof.
  unfold kindOf.
  destruct (String.eqb_spec t "AssignJobs") as [-> | n1]; [now left |].
  destruct (String.eqb_spec t "Hire") as [-> | n2]; [now right; left |].
  destruct (String.eqb_spec t "Fire") as [-> | n3];
    [now right; right; left |].
  destruct (String.eqb_spec t "BuyFood") as [-> | n4];
    [now right; right; right; left |].
  destruct (String.eqb_spec t "StartUpgrade") as [-> | n5];
    [now right; right; right; right; left |].
  right; right; right; right; right. repeat split; assumption.
Qed.

(** ** Admission *)

Lemma assignJobs_tests (p : ActionParams) :
  (lt0 (p_miners p) || lt0 (p_farmers p) || lt0 (p_lumberjacks p)
   || lt0 (p_builders p) = false /\
   negb (isInteger (p_miners p)) || negb (isInteger (p_farmers p))
   || negb (isInteger (p_lumberjacks p)) || negb (isInteger (p_builders p))
   = false) <->
  natural (p_miners p) /\ natural (p_farmers p) /\
  natural (p_lumberjacks p) /\ natural (p_builders p).
Proof.
  rewrite <- !natural_tests, !orb_false_iff. tauto.
Qed.

Lemma validateActionParams_iff (a : Action) :
  validateActionParams a = Valid <-> syntacticallyValid a.
Proof.
  unfold validateActionParams, syntacticallyValid.
  destruct (kindOf_cases (type a))
    as [[E K] | [[E K] | [[E K] | [[E K] | [[E K] | (N1 & N2 & N3 & N4 & N5 & K)]]]]];
    rewrite K, ?E.
  - rewrite <- assignJobs_tests.
    destruct (lt0 _ || lt0 _ || lt0 _ || lt0 _);
      [| destruct (negb _ || negb _ || negb _ || negb _)].
    + split; [discriminate |].
      intros [(_ & H & _) | [(H & _) | [(H & _) | [(H & _) | H]]]];
        discriminate H.
    + split; [discriminate |].
      intros [(_ & _ & H) | [(H & _) | [(H & _) | [(H & _) | H]]]];
        discriminate H.
    + split; [left; auto | reflexivity].
  - rewrite <- (natural_tests (p_count (params a))).
    destruct (lt0 _ || negb _).
    + split; [discriminate |].
      intros [(H & _) | [(_ & H) | [(H & _) | [(H & _) | H]]]]; discriminate H.
    + split; [right; left; auto | reflexivity].
  - rewrite <- (natural_tests (p_count (params a))).
    destruct (lt0 _ || negb _).
    + split; [discriminate |].
      intros [(H & _) | [(H & _) | [(_ & H) | [(H & _) | H]]]]; discriminate H.
    + split; [right; right; left; auto | reflexivity].
  - rewrite <- (natural_tests (p_amount (params a))).
    destruct (lt0 _ || negb _).
    + split; [discriminate |].
      intros [(H & _) | [(H & _) | [(H & _) | [(_ & H) | H]]]]; discriminate H.
    + split; [right; right; right; left; auto | reflexivity].
  - split; [intros _; right; right; right; right; reflexivity | reflexivity].
  - split; [discriminate |].
    intros [(H & _) | [(H & _) | [(H & _) | [(H & _) | H]]]]; contradiction.
Qed.

(** C10.  An engine constructed without an override starts at turn 0 with
    25 gold, 18 food, 0 wood, 5 workers, castle level 0, jobs of 2 miners,
    1 farmer, 1 lumberjack and 0 builders, and no upgrade active (and with
    an empty queue). *)
Theorem constructor_default_state :
  let s := state (constructor None) in
  turn s = 0 /\ gold s = 25 /\ food s = 18 /\ wood s = 0 /\
  workers s = 5 /\ castleLevel s = 0 /\
  jobs s = mkJobs 2 1 1 0 /\
  active (upgradeInProgress s) = false /\
  target (upgradeInProgress s) = None /\
  progress (upgradeInProgress s) = None /\
  woodRequired (upgradeInProgress s) = None /\
  actionQueue (constructor None) = [].
Proof. cbv. repeat split. Qed.

(** C7.  [enqueueAction] never changes the state; whether it accepts does
    not depend on the engine it is called on, and it accepts exactly the
    syntactically valid actions (known kind, every numeric parameter of the
    kind an integer [>= 0]); on acceptance the action goes to the back of
    the queue, stamped with the current turn, and the caller is told
    [currentTurn + 1]; on refusal the engine is untouched and the caller
    gets an error. *)
Theorem enqueueAction_syntactic_only (a : Action) (e : Engine) :
  state (fst (enqueueAction a e)) = state e /\
  (forall e' : Engine,
     queued (snd (enqueueAction a e')) = queued (snd (enqueueAction a e))) /\
  (queued (snd (enqueueAction a e)) = true <-> syntacticallyValid a) /\
  (queued (snd (enqueueAction a e)) = true ->
     actionQueue (fst (enqueueAction a e))
       = (actionQueue e ++ [mkQueued a (turn (state e))])%list /\
     snd (enqueueAction a e)
       = mkResult true (Some (turn (state e) + 1)) None) /\
  (queued (snd (enqueueAction a e)) = false ->
     fst (enqueueAction a e) = e /\
     exists err, snd (enqueueAction a e) = mkResult false None (Some err)).
Proof.
  rewrite <- validateActionParams_iff. unfold enqueueAction.
  destruct (validateActionParams a) as [| err]; simpl.
  - repeat split; try reflexivity; try discriminate.
  - repeat split; try reflexivity; try discriminate.
    exists err. reflexivity.
Qed.

Lemma enqueueAction_syntactic_only_witness :
  let e := constructor None in
  syntacticallyValid (hire 2) /\
  state (fst (enqueueAction (hire 2) e)) = state e /\
  actionQueue (fst (enqueueAction (hire 2) e)) = [mkQueued (hire 2) 0] /\
  snd (enqueueAction (hire 2) e) = mkResult true (Some 1) None /\
  fst (enqueueAction (hire (-1)) e) = e.
Proof.
  destruct (enqueueAction_syntactic_only (hire 2) (constructor None))
    as (Hstate & _ & Hiff & Hok & _).
  destruct (Hok eq_refl) as (Hq & Hr).
  destruct (enqueueAction_syntactic_only (hire (-1)) (constructor None))
    as (_ & _ & _ & _ & Hbad).
  destruct (Hbad eq_refl) as (He & _).
  split; [apply Hiff; reflexivity |].
  split; [exact Hstate | split; [exact Hq | split; [exact Hr | exact He]]].
Defined.

(** ** The order of the queue *)

Lemma insertByPriority_perm (a : QueuedAction) (l : list QueuedAction) :
  Permutation (insertByPriority a l) (a :: l).
Proof.
  induction l as [| b l IH]; simpl.
  - apply Permutation_refl.
  - destruct (priority a <=? priority b).
    + apply Permutation_refl.
    + eapply perm_trans; [apply perm_skip, IH | apply perm_swap].
Qed.

Lemma sortActionQueue_perm (q : list QueuedAction) :
  Permutation (sortActionQueue q) q.
Proof.
  induction q as [| a q IH]; simpl.
  - constructor.
  - eapply perm_trans; [apply insertByPriority_perm | apply perm_skip, IH].
Qed.

Lemma insertByPriority_sorted (a : QueuedAction) (l : list QueuedAction) :
  StronglySorted byPriority l ->
  StronglySorted byPriority (insertByPriority a l).
Proof.
  induction 1 as [| b l Hl IH Hb]; simpl.
  - repeat constructor.
  - destruct (Z.leb_spec (priority a) (priority b)) as [Hab | Hba].
    + constructor; [constructor; assumption |].
      constructor; [exact Hab |].
      eapply Forall_impl; [| exact Hb].
      unfold byPriority. intros c Hc. lia.
    + constructor; [exact IH |].
      eapply Permutation_Forall;
        [apply Permutation_sym, insertByPriority_perm |].
      constructor; [unfold byPriority; lia | exact Hb].
Qed.

Lemma sortActionQueue_sorted (q : list QueuedAction) :
  StronglySorted byPriority (sortActionQueue q).
Proof.
  induction q as [| a q IH]; simpl.
  - constructor.
  - apply insertByPriority_sorted, IH.
Qed.

Lemma ofPriority_insert (p : Z) (a : QueuedAction) (l : list QueuedAction) :
  ofPriority p (insertByPriority a l) = ofPriority p (a :: l).
Proof.
  unfold ofPriority.
  induction l as [| b l IH]; simpl; [reflexivity |].
  destruct (Z.leb_spec (priority a) (priority b)) as [Hab | Hba];
    [reflexivity |].
  simpl in *. rewrite IH.
  destruct (Z.eqb_spec (priority a) p), (Z.eqb_spec (priority b) p);
    try reflexivity.
  lia.
Qed.

Lemma sortActionQueue_stable (p : Z) (q : list QueuedAction) :
  ofPriority p (sortActionQueue q) = ofPriority p q.
Proof.
  induction q as [| a q IH]; simpl; [reflexivity |].
  rewrite ofPriority_insert. unfold ofPriority in *. simpl.
  rewrite IH. reflexivity.
Qed.

(** Two lists in priority order with the same classes are the same list:
    the result of a stable sort does not depend on the algorithm. *)
Lemma sorted_classes_unique (l1 l2 : list QueuedAction) :
  StronglySorted byPriority l1 -> StronglySorted byPriority l2 ->
  (forall p : Z, ofPriority p l1 = ofPriority p l2) ->
  l1 = l2.
Proof.
  assert (Hhead : forall (a b : QueuedAction) (k1 k2 : list QueuedAction),
            StronglySorted byPriority (b :: k2) ->
            ofPriority (priority a) (a :: k1)
            = ofPriority (priority a) (b :: k2) ->
            priority b <= priority a).
  { intros a b k1 k2 S H. unfold ofPriority in H. cbn [filter] in H.
    rewrite Z.eqb_refl in H.
    destruct (Z.eqb_spec (priority b) (priority a)) as [E | N]; [lia |].
    assert (Hin : In a (filter (fun x => priority x =? priority a) k2))
      by (rewrite <- H; left; reflexivity).
    apply filter_In in Hin. destruct Hin as (Hin & _).
    inversion S as [| ? ? _ F]; subst.
    rewrite Forall_forall in F. specialize (F a Hin).
    unfold byPriority in F. lia. }
  revert l2. induction l1 as [| a l1 IH]; intros l2 S1 S2 H.
  - destruct l2 as [| b l2]; [reflexivity |].
    specialize (H (priority b)). unfold ofPriority in H.
    cbn [filter] in H. rewrite Z.eqb_refl in H. discriminate H.
  - destruct l2 as [| b l2].
    + specialize (H (priority a)). unfold ofPriority in H.
      cbn [filter] in H. rewrite Z.eqb_refl in H. discriminate H.
    + assert (Hp : priority a = priority b).
      { pose proof (Hhead a b l1 l2 S2 (H (priority a))).
        pose proof (Hhead b a l2 l1 S1 (eq_sym (H (priority b)))).
        lia. }
      assert (Hab : a = b).
      { specialize (H (priority a)). unfold ofPriority in H.
        cbn [filter] in H. rewrite <- Hp, Z.eqb_refl in H.
        injection H as H _. exact H. }
      subst b. f_equal.
      inversion S1; inversion S2; subst.
      apply IH; try assumption.
      intros p. specialize (H p). unfold ofPriority in *.
      cbn [filter] in H.
      destruct (priority a =? p); [injection H as H; exact H | exact H].
Qed.

Lemma sortActionQueue_unique (q l : list QueuedAction) :
  StronglySorted byPriority l ->
  (forall p : Z, ofPriority p l = ofPriority p q) ->
  l = sortActionQueue q.
Proof.
  intros Hs Hc. apply sorted_classes_unique.
  - exact Hs.
  - apply sortActionQueue_sorted.
  - intros p. rewrite sortActionQueue_stable. apply Hc.
Qed.

Lemma sortActionQueue_admitted (q : list QueuedAction) :
  Forall admitted q -> Forall admitted (sortActionQueue q).
Proof.
  apply Permutation_Forall, Permutation_sym, sortActionQueue_perm.
Qed.

(** The classes, by the name of the kind. *)
Lemma priority_by_name (a : QueuedAction) :
  (type (queued_action a) = "Hire" -> priority a = 1) /\
  (type (queued_action a) = "Fire" -> priority a = 1) /\
  (type (queued_action a) = "AssignJobs" -> priority a = 2) /\
  (type (queued_action a) = "StartUpgrade" -> priority a = 3) /\
  (type (queued_action a) = "BuyFood" -> priority a = 4).
Proof.
  unfold priority. repeat split; intros ->; reflexivity.
Qed.

(** ** The loop over the queue *)

Lemma applyEach_cons (a : QueuedAction) (q : list QueuedAction)
      (s : GameState) :
  st (applyEach (a :: q) s) = st (applyEach q (applyIfValid a s)).
Proof.
  unfold applyIfValid. simpl.
  destruct (validateActionAtApplyTime a s); reflexivity.
Qed.

Lemma applyEach_app (l1 l2 : list QueuedAction) (s : GameState) :
  st (applyEach (l1 ++ l2) s) = st (applyEach l2 (st (applyEach l1 s))) /\
  applied (applyEach (l1 ++ l2) s)
    = (applied (applyEach l1 s)
       ++ applied (applyEach l2 (st (applyEach l1 s))))%list /\
  rejected (applyEach (l1 ++ l2) s)
    = (rejected (applyEach l1 s)
       ++ rejected (applyEach l2 (st (applyEach l1 s))))%list.
Proof.
  revert s. induction l1 as [| a l1 IH]; intros s; simpl.
  - repeat split.
  - destruct (validateActionAtApplyTime a s) as [| err]; simpl.
    + destruct (IH (applyAction a s)) as (H1 & H2 & H3).
      rewrite H1, H2, H3. repeat split.
    + destruct (IH s) as (H1 & H2 & H3).
      rewrite H1, H2, H3. repeat split.
Qed.

Lemma applyEach_rejected_one (a : QueuedAction) (l : list QueuedAction)
      (s : GameState) (err : string) :
  validateActionAtApplyTime a s = Invalid err ->
  st (applyEach (a :: l) s) = st (applyEach l s) /\
  applied (applyEach (a :: l) s) = applied (applyEach l s) /\
  rejected (applyEach (a :: l) s)
    = rejectionLine a err :: rejected (applyEach l s).
Proof.
  intros H. simpl. rewrite H. simpl. repeat split.
Qed.

Lemma tick_clears_queue (e : Engine) : actionQueue (tick e) = [].
Proof. reflexivity. Qed.

(** ** Construction *)

Lemma buildLoop_closed (n : nat) (s : GameState) :
  let u := upgradeInProgress s in
  let k := Z.min (Z.of_nat n) (Z.max 0 (wood s)) in
  buildLoop n s
  = mkState (turn s) (gold s) (food s) (wood s - k) (workers s)
            (castleLevel s) (jobs s)
            (mkUpgrade (active u) (target u)
                       (option_map (fun p => p + k) (progress u))
                       (woodRequired u)).
Proof.
  revert s. induction n as [| n IH]; intros s.
  - break_state s. cbn -[Z.min Z.max Z.of_nat].
    replace (Z.min (Z.of_nat 0) (Z.max 0 wood0)) with 0 by lia.
    f_equal; [lia |]. f_equal.
    destruct progress0; simpl; f_equal; lia.
  - cbn [buildLoop]. rewrite IH. unfold buildOnce.
    destruct (Z.ltb_spec 0 (wood s)) as [Hw | Hw].
    + break_state s. cbn -[Z.min Z.max Z.of_nat] in *.
      replace (Z.min (Z.of_nat (S n)) (Z.max 0 wood0))
        with (Z.min (Z.of_nat n) (Z.max 0 (wood0 - 1)) + 1) by lia.
      f_equal; [lia |]. f_equal.
      destruct progress0; simpl; f_equal; lia.
    + replace (Z.min (Z.of_nat (S n)) (Z.max 0 (wood s)))
        with (Z.min (Z.of_nat n) (Z.max 0 (wood s))) by lia.
      reflexivity.
Qed.


Lemma buildLoop_builders (s : GameState) :
  let u := upgradeInProgress s in
  let k := Z.min (Z.max 0 (builders (jobs s))) (Z.max 0 (wood s)) in
  buildLoop (Z.to_nat (builders (jobs s))) s
  = mkState (turn s) (gold s) (food s) (wood s - k) (workers s)
            (castleLevel s) (jobs s)
            (mkUpgrade (active u) (target u)
                       (option_map (fun p => p + k) (progress u))
                       (woodRequired u)).
Proof.
  intros u k. rewrite buildLoop_closed. subst u k.
  replace (Z.of_nat (Z.to_nat (builders (jobs s))))
    with (Z.max 0 (builders (jobs s))) by lia.
  reflexivity.
Qed.

Lemma applyConstruction_eq (s : GameState) :
  let u := upgradeInProgress s in
  let k := Z.min (Z.max 0 (builders (jobs s))) (Z.max 0 (wood s)) in
  let p' := option_map (fun p => p + k) (progress u) in
  applyConstruction s
  = (if active u
     then
       if geq p' (woodRequired u)
       then mkState (turn s) (gold s + 5) (food s) (wood s - k) (workers s)
                    (castleLevel s + 1) (jobs s)
                    (mkUpgrade false None None None)
       else mkState (turn s) (gold s) (food s) (wood s - k) (workers s)
                    (castleLevel s) (jobs s)
                    (mkUpgrade true (target u) p' (woodRequired u))
     else s).
Proof.
  intros u k p'. unfold applyConstruction. fold u.
  destruct (active u) eqn:Ha; [| reflexivity].
  cbn [negb]. rewrite buildLoop_builders. fold u k p'. cbn.
  rewrite Ha. destruct (geq p' (woodRequired u)); reflexivity.
Qed.



(** The construction phase touches neither food, workers, jobs nor the
    turn. *)
Lemma applyConstruction_frame (s : GameState) :
  turn (applyConstruction s) = turn s /\
  food (applyConstruction s) = food s /\
  workers (applyConstruction s) = workers s /\
  jobs (applyConstruction s) = jobs s.
Proof.
  rewrite applyConstruction_eq.
  destruct (active (upgradeInProgress s)); [| repeat split].
  destruct (geq _ _); repeat split.
Qed.

Lemma applyConstruction_resources (s : GameState) :
  resourcesNonneg s -> resourcesNonneg (applyConstruction s).
Proof.
  unfold resourcesNonneg.
  rewrite applyConstruction_eq. intros (Hg & Hf & Hw).
  destruct (active (upgradeInProgress s)); [| repeat split; assumption].
  destruct (geq _ _); cbn -[Z.min Z.max]; repeat split; lia.
Qed.

(** ** Upkeep *)

(** [ceilHalf n] is the least integer [c] with [n <= 2 * c]. *)
Lemma ceilHalf_spec (n : Z) : 2 * ceilHalf n - 2 < n <= 2 * ceilHalf n.
Proof.
  unfold ceilHalf.
  pose proof (Z.div_mod (- n) 2 ltac:(lia)) as E.
  pose proof (Z.mod_pos_bound (- n) 2 ltac:(lia)) as B.
  lia.
Qed.

Lemma reduceJobsByPriority_closed (n : Z) (s : GameState) :
  let j := jobs s in
  let fromBuilders := Z.min n (builders j) in
  let fromLumberjacks := takeFrom (n - fromBuilders) (lumberjacks j) in
  let fromFarmers :=
    takeFrom (n - fromBuilders - fromLumberjacks) (farmers j) in
  let fromMiners :=
    takeFrom (n - fromBuilders - fromLumberjacks - fromFarmers) (miners j) in
  reduceJobsByPriority n s
  = set_jobs (mkJobs (miners j - fromMiners) (farmers j - fromFarmers)
                     (lumberjacks j - fromLumberjacks)
                     (builders j - fromBuilders)) s.
Proof.
  unfold reduceJobsByPriority, takeFrom. break_state s.
  cbn -[Z.min].
  destruct (0 <? n - Z.min n builders0) eqn:E1; cbn -[Z.min];
    repeat (first [rewrite Z.sub_0_r | rewrite E1]; cbn -[Z.min]);
    [| reflexivity].
  destruct (0 <? n - Z.min n builders0
                 - Z.min (n - Z.min n builders0) lumberjacks0) eqn:E2;
    cbn -[Z.min];
    repeat (first [rewrite Z.sub_0_r | rewrite E2]; cbn -[Z.min]);
    [| reflexivity].
  clear E1 E2.
  destruct (0 <? _); cbn -[Z.min]; rewrite ?Z.sub_0_r; reflexivity.
Qed.

Lemma takeFrom_capped (remaining count : Z) :
  0 <= remaining -> 0 <= count ->
  takeFrom remaining count = Z.min remaining count.
Proof.
  unfold takeFrom. intros Hr Hc.
  destruct (Z.ltb_spec 0 remaining); lia.
Qed.

Lemma applyUpkeep_eq (s : GameState) :
  let j := jobs s in
  let fed := food s - workers s in
  let workersLost := ceilHalf (- fed) in
  let fromBuilders := Z.min workersLost (builders j) in
  let fromLumberjacks :=
    takeFrom (workersLost - fromBuilders) (lumberjacks j) in
  let fromFarmers :=
    takeFrom (workersLost - fromBuilders - fromLumberjacks) (farmers j) in
  let fromMiners :=
    takeFrom (workersLost - fromBuilders - fromLumberjacks - fromFarmers)
             (miners j) in
  applyUpkeep s
  = (if 0 <=? fed
     then mkState (turn s) (gold s) fed (wood s) (workers s)
                  (castleLevel s) j (upgradeInProgress s)
     else mkState (turn s) (gold s) 0 (wood s)
                  (Z.max 0 (workers s - workersLost)) (castleLevel s)
                  (mkJobs (miners j - fromMiners) (farmers j - fromFarmers)
                          (lumberjacks j - fromLumberjacks)
                          (builders j - fromBuilders))
                  (upgradeInProgress s)).
Proof.
  intros j fed workersLost fromBuilders fromLumberjacks fromFarmers
         fromMiners.
  pose proof (ceilHalf_spec (- fed)) as Hceil. fold workersLost in Hceil.
  unfold applyUpkeep. cbn [food set_food].
  fold fed. destruct (Z.ltb_spec fed 0) as [Hneg | Hpos];
    destruct (Z.leb_spec 0 fed) as [Hpos' | Hneg']; try lia.
  - fold workersLost.
    destruct (Z.ltb_spec 0 workersLost) as [HL | HL]; [| lia].
    rewrite reduceJobsByPriority_closed. reflexivity.
  - reflexivity.
Qed.

(** What a shortage does to jobs that are proper counts. *)
Lemma applyUpkeep_shortage (s : GameState) :
  jobsNonneg (jobs s) -> food s - workers s < 0 ->
  let j := jobs s in
  let j' := jobs (applyUpkeep s) in
  let workersLost := ceilHalf (- (food s - workers s)) in
  0 < workersLost /\
  workers (applyUpkeep s) = Z.max 0 (workers s - workersLost) /\
  jobsNonneg j' /\
  jobsSum j' = jobsSum j - Z.min workersLost (jobsSum j) /\
  (lumberjacks j' < lumberjacks j -> builders j' = 0) /\
  (farmers j' < farmers j -> builders j' = 0 /\ lumberjacks j' = 0) /\
  (miners j' < miners j ->
   builders j' = 0 /\ lumberjacks j' = 0 /\ farmers j' = 0).
Proof.
  intros Hjobs Hneg j j' workersLost.
  pose proof (ceilHalf_spec (- (food s - workers s))) as Hceil.
  fold workersLost in Hceil.
  subst j'. rewrite (applyUpkeep_eq s).
  destruct (Z.leb_spec 0 (food s - workers s)) as [Hpos | _]; [lia |].
  fold workersLost. fold j.
  unfold jobsNonneg, jobsSum in *. fold j in Hjobs.
  destruct Hjobs as (Hm & Hf & Hl & Hb).
  cbn -[Z.min Z.max takeFrom].
  set (fromBuilders := Z.min workersLost (builders j)).
  rewrite (takeFrom_capped (workersLost - fromBuilders) (lumberjacks j))
    by lia.
  set (fromLumberjacks :=
         Z.min (workersLost - fromBuilders) (lumberjacks j)).
  rewrite (takeFrom_capped (workersLost - fromBuilders - fromLumberjacks)
                           (farmers j)) by lia.
  set (fromFarmers :=
         Z.min (workersLost - fromBuilders - fromLumberjacks) (farmers j)).
  rewrite (takeFrom_capped
             (workersLost - fromBuilders - fromLumberjacks - fromFarmers)
             (miners j)) by lia.
  repeat split; lia.
Qed.

(** C3.  Upkeep takes [workers] food.  When that leaves the food at zero or
    more nothing else changes.  When it would go negative by [shortage],
    the food is set to zero, [workersLost = ceil(shortage / 2)] workers go
    (never below zero workers) and the jobs give up [workersLost] places,
    builders first, then lumberjacks, farmers and miners, none giving more
    than it has.  For job counts that are not negative this means: a later
    job is touched only when the earlier ones are empty, and the places
    given up are [workersLost] in all as long as the jobs hold that many.
    With 4 workers, 4 food leave 0 food and 4 workers; 3 food leave 3
    workers. *)
Theorem upkeep_phase_spec (s : GameState) :
  let j := jobs s in
  let fed := food s - workers s in
  let shortage := - fed in
  let workersLost := ceilHalf shortage in
  let fromBuilders := Z.min workersLost (builders j) in
  let fromLumberjacks :=
    takeFrom (workersLost - fromBuilders) (lumberjacks j) in
  let fromFarmers :=
    takeFrom (workersLost - fromBuilders - fromLumberjacks) (farmers j) in
  let fromMiners :=
    takeFrom (workersLost - fromBuilders - fromLumberjacks - fromFarmers)
             (miners j) in
  let j' := jobs (applyUpkeep s) in
  2 * workersLost - 2 < shortage <= 2 * workersLost /\
  applyUpkeep s
  = (if 0 <=? fed
     then mkState (turn s) (gold s) fed (wood s) (workers s)
                  (castleLevel s) j (upgradeInProgress s)
     else mkState (turn s) (gold s) 0 (wood s)
                  (Z.max 0 (workers s - workersLost)) (castleLevel s)
                  (mkJobs (miners j - fromMiners) (farmers j - fromFarmers)
                          (lumberjacks j - fromLumberjacks)
                          (builders j - fromBuilders))
                  (upgradeInProgress s)) /\
  (jobsNonneg j -> fed < 0 ->
     0 < workersLost /\
     fromLumberjacks = Z.min (workersLost - fromBuilders) (lumberjacks j) /\
     fromFarmers
     = Z.min (workersLost - fromBuilders - fromLumberjacks) (farmers j) /\
     fromMiners
     = Z.min (workersLost - fromBuilders - fromLumberjacks - fromFarmers)
             (miners j) /\
     jobsNonneg j' /\
     jobsSum j' = jobsSum j - Z.min workersLost (jobsSum j) /\
     (lumberjacks j' < lumberjacks j -> builders j' = 0) /\
     (farmers j' < farmers j -> builders j' = 0 /\ lumberjacks j' = 0) /\
     (miners j' < miners j ->
      builders j' = 0 /\ lumberjacks j' = 0 /\ farmers j' = 0)) /\
  (workers s = 4 -> food s = 4 ->
     food (applyUpkeep s) = 0 /\ workers (applyUpkeep s) = 4 /\ j' = j) /\
  (workers s = 4 -> food s = 3 ->
     food (applyUpkeep s) = 0 /\ workers (applyUpkeep s) = 3).
Proof.
  intros j fed shortage workersLost fromBuilders fromLumberjacks fromFarmers
         fromMiners j'.
  pose proof (ceilHalf_spec shortage) as Hceil. fold workersLost in Hceil.
  pose proof (applyUpkeep_eq s) as Heq. cbn zeta in Heq.
  fold j fed shortage workersLost fromBuilders fromLumberjacks fromFarmers
       fromMiners in Heq.
  split; [exact Hceil | split; [exact Heq | split; [| split]]].
  - intros Hjobs Hneg.
    destruct (applyUpkeep_shortage s Hjobs Hneg)
      as (H0 & _ & H1 & H2 & H3 & H4 & H5).
    destruct Hjobs as (Hm & Hf & Hl & Hb). fold j in Hm, Hf, Hl, Hb.
    assert (E1 : fromLumberjacks
                 = Z.min (workersLost - fromBuilders) (lumberjacks j))
      by (apply takeFrom_capped; lia).
    assert (E2 : fromFarmers
                 = Z.min (workersLost - fromBuilders - fromLumberjacks)
                         (farmers j))
      by (apply takeFrom_capped; lia).
    assert (E3 : fromMiners
                 = Z.min (workersLost - fromBuilders - fromLumberjacks
                          - fromFarmers) (miners j))
      by (apply takeFrom_capped; lia).
    split; [exact H0 | split; [exact E1 | split; [exact E2 |]]].
    split; [exact E3 | split; [exact H1 | split; [exact H2 |]]].
    split; [exact H3 | split; [exact H4 | exact H5]].
  - intros Hw Hfood. subst j'. rewrite Heq.
    assert (Hfed : fed = 0) by (subst fed; lia).
    rewrite Hfed. cbn. repeat split. exact Hw.
  - intros Hw Hfood. rewrite Heq.
    assert (Hfed : fed = -1) by (subst fed; lia).
    rewrite Hfed. cbn -[Z.min Z.max takeFrom]. subst shortage. lia.
Qed.

Lemma upkeep_phase_spec_witness :
  let s := mkState 2 10 3 0 4 0 (mkJobs 2 1 1 0)
                   (mkUpgrade false None None None) in
  jobsNonneg (jobs s) /\
  food (applyUpkeep s) = 0 /\ workers (applyUpkeep s) = 3 /\
  jobs (applyUpkeep s) = mkJobs 2 1 0 0 /\
  jobsSum (jobs (applyUpkeep s)) = 3.
Proof.
  assert (Hj : jobsNonneg (jobs (mkState 2 10 3 0 4 0 (mkJobs 2 1 1 0)
                                   (mkUpgrade false None None None))))
    by (unfold jobsNonneg; cbn; lia).
  split; [exact Hj |].
  destruct (upkeep_phase_spec
              (mkState 2 10 3 0 4 0 (mkJobs 2 1 1 0)
                       (mkUpgrade false None None None)))
    as (_ & Heq & Hshort & _ & Hthree).
  destruct (Hthree eq_refl eq_refl) as (Hf & Hw).
  destruct (Hshort Hj ltac:(cbn; lia)) as (_ & _ & _ & _ & _ & Hsum & _).
  split; [exact Hf | split; [exact Hw | split; [| exact Hsum]]].
  rewrite Heq. reflexivity.
Defined.

Lemma applyUpkeep_staffed (s : GameState) :
  staffed s -> staffed (applyUpkeep s).
Proof.
  unfold staffed. intros (Hj & Hsum).
  destruct (Z.leb_spec 0 (food s - workers s)) as [Hpos | Hneg].
  - rewrite (applyUpkeep_eq s).
    destruct (Z.leb_spec 0 (food s - workers s)); [| lia].
    cbn. split; assumption.
  - destruct (applyUpkeep_shortage s Hj Hneg) as (_ & Hw & Hj' & Hs' & _).
    split; [exact Hj' |]. rewrite Hs', Hw. lia.
Qed.

Lemma applyUpkeep_jobsNonneg (s : GameState) :
  jobsNonneg (jobs s) -> jobsNonneg (jobs (applyUpkeep s)).
Proof.
  intros Hj.
  destruct (Z.leb_spec 0 (food s - workers s)) as [Hpos | Hneg].
  - rewrite (applyUpkeep_eq s).
    destruct (Z.leb_spec 0 (food s - workers s)); [| lia].
    cbn. exact Hj.
  - apply (applyUpkeep_shortage s Hj Hneg).
Qed.

Lemma reduceJobsByPriority_frame (n : Z) (s : GameState) :
  exists j, reduceJobsByPriority n s = set_jobs j s.
Proof.
  unfold reduceJobsByPriority.
  repeat match goal with
  | |- context [if ?c then _ else _] => destruct c; cbn -[Z.min]
  end; eexists; reflexivity.
Qed.

Lemma applyUpkeep_frame (s : GameState) :
  gold (applyUpkeep s) = gold s /\ wood (applyUpkeep s) = wood s /\
  castleLevel (applyUpkeep s) = castleLevel s /\
  upgradeInProgress (applyUpkeep s) = upgradeInProgress s /\
  0 <= food (applyUpkeep s) /\
  (0 <= food s - workers s ->
   workers (applyUpkeep s) = workers s /\ jobs (applyUpkeep s) = jobs s).
Proof.
  unfold applyUpkeep. cbn [food set_food workers].
  destruct (Z.ltb_spec (food s - workers s) 0) as [Hneg | Hpos].
  - destruct (0 <? _).
    + match goal with
      | |- context [reduceJobsByPriority ?n ?x] =>
          destruct (reduceJobsByPriority_frame n x) as (j & ->)
      end.
      cbn. repeat split; lia.
    + cbn. repeat split; lia.
  - cbn. repeat split; lia.
Qed.

(** ** One action *)

Lemma admitted_kind (a : QueuedAction) :
  admitted a ->
  let p := params (queued_action a) in
  match kindOf (type (queued_action a)) with
  | KAssignJobs =>
      0 <= valueOf (p_miners p) /\ 0 <= valueOf (p_farmers p) /\
      0 <= valueOf (p_lumberjacks p) /\ 0 <= valueOf (p_builders p)
  | KHire | KFire => 0 <= valueOf (p_count p)
  | KBuyFood => 0 <= valueOf (p_amount p)
  | KStartUpgrade => True
  | KOther => False
  end.
Proof.
  unfold admitted, syntacticallyValid.
  intros [(E & Hm & Hf & Hl & Hb)
         | [(E & H) | [(E & H) | [(E & H) | E]]]];
    rewrite E; cbn; auto using natural_valueOf.
Qed.

(** The name of the kind, from the case the switch takes. *)
Lemma kindOf_name (t : string) :
  match kindOf t with
  | KAssignJobs => t = "AssignJobs"
  | KHire => t = "Hire"
  | KFire => t = "Fire"
  | KBuyFood => t = "BuyFood"
  | KStartUpgrade => t = "StartUpgrade"
  | KOther => True
  end.
Proof.
  destruct (kindOf_cases t)
    as [[E K] | [[E K] | [[E K] | [[E K] | [[E K] | (_ & _ & _ & _ & _ & K)]]]]];
    rewrite K; auto.
Qed.

Lemma applyIfValid_resources (a : QueuedAction) (s : GameState) :
  admitted a -> resourcesNonneg s -> resourcesNonneg (applyIfValid a s).
Proof.
  intros Ha (Hg & Hf & Hw). pose proof (admitted_kind a Ha) as K.
  unfold resourcesNonneg, applyIfValid, validateActionAtApplyTime,
    applyAction in *.
  cbn zeta in K.
  destruct (kindOf (type (queued_action a))); cbn zeta;
    try destruct (active (upgradeInProgress s));
    split_tests; simpl_state; repeat split; lia.
Qed.

Lemma applyIfValid_jobsNonneg (a : QueuedAction) (s : GameState) :
  admitted a -> jobsNonneg (jobs s) -> jobsNonneg (jobs (applyIfValid a s)).
Proof.
  intros Ha Hj. pose proof (admitted_kind a Ha) as K.
  unfold jobsNonneg, applyIfValid, validateActionAtApplyTime,
    applyAction in *.
  cbn zeta in K.
  destruct (kindOf (type (queued_action a))); cbn zeta;
    try destruct (active (upgradeInProgress s));
    split_tests; simpl_state; assumption.
Qed.

(** A property that every admitted action keeps is kept by the loop. *)
Lemma applyEach_keeps (P : GameState -> Prop) :
  (forall a s, admitted a -> P s -> P (applyIfValid a s)) ->
  forall q s, Forall admitted q -> P s -> P (st (applyEach q s)).
Proof.
  intros Hstep q. induction q as [| a q IH]; intros s Hq Hs.
  - exact Hs.
  - rewrite applyEach_cons. inversion Hq; subst.
    apply IH; [assumption |]. apply Hstep; assumption.
Qed.

(** ** The phases of a tick *)


Lemma applyProduction_resources (s : GameState) :
  jobsNonneg (jobs s) -> resourcesNonneg s ->
  resourcesNonneg (applyProduction s).
Proof.
  unfold jobsNonneg, resourcesNonneg, applyProduction.
  intros (Hm & Hf & Hl & Hb) (Hg & Hfo & Hw).
  simpl_state. repeat split; lia.
Qed.

Lemma applyTaxes_frame (s : GameState) :
  workers (applyTaxes s) = workers s /\ jobs (applyTaxes s) = jobs s /\
  upgradeInProgress (applyTaxes s) = upgradeInProgress s /\
  food (applyTaxes s) = food s /\ wood (applyTaxes s) = wood s /\
  gold s <= gold (applyTaxes s).
Proof.
  unfold applyTaxes. destruct (Z.ltb_spec 0 (1 * castleLevel s));
    simpl_state; repeat split; lia.
Qed.

Lemma clampResources_frame (s : GameState) :
  workers (clampResources s) = workers s /\
  jobs (clampResources s) = jobs s /\
  upgradeInProgress (clampResources s) = upgradeInProgress s.
Proof. repeat split. Qed.

Lemma clampResources_nonneg (s : GameState) :
  resourcesNonneg (clampResources s).
Proof.
  unfold resourcesNonneg, clampResources. simpl_state. lia.
Qed.

Lemma clampResources_idle (s : GameState) :
  resourcesNonneg s -> clampResources s = s.
Proof.
  unfold resourcesNonneg, clampResources. intros (Hg & Hf & Hw).
  break_state s. simpl_state. unfold set_gold, set_food, set_wood.
  simpl_state. f_equal; lia.
Qed.

Lemma beforeClamp_unfold (e : Engine) :
  beforeClamp e
  = applyTaxes
      (applyUpkeep
         (applyConstruction
            (applyProduction
               (set_turn (turn (state e) + 1)
                  (st (applyEach (sortActionQueue (actionQueue e))
                                 (state e))))))).
Proof. reflexivity. Qed.

Lemma tick_state (e : Engine) :
  state (tick e) = clampResources (beforeClamp e).
Proof. reflexivity. Qed.

(** Resources and job counts stay non-negative up to the clamp. *)
Lemma beforeClamp_sound (e : Engine) :
  sound e ->
  resourcesNonneg (beforeClamp e) /\ jobsNonneg (jobs (beforeClamp e)).
Proof.
  intros (Hr & Hj & Hq). rewrite beforeClamp_unfold.
  pose proof (sortActionQueue_admitted _ Hq) as Hsq.
  set (s1 := st (applyEach (sortActionQueue (actionQueue e)) (state e))).
  assert (Hr1 : resourcesNonneg s1)
    by (apply (applyEach_keeps _ applyIfValid_resources); assumption).
  assert (Hj1 : jobsNonneg (jobs s1))
    by (apply (applyEach_keeps (fun s => jobsNonneg (jobs s))
                               applyIfValid_jobsNonneg); assumption).
  set (s2 := set_turn (turn (state e) + 1) s1).
  assert (Hr3 : resourcesNonneg (applyProduction s2))
    by (apply applyProduction_resources; assumption).
  assert (Hj3 : jobsNonneg (jobs (applyProduction s2))) by exact Hj1.
  set (s3 := applyProduction s2) in *.
  pose proof (applyConstruction_resources s3 Hr3) as Hr4.
  destruct (applyConstruction_frame s3) as (_ & _ & _ & Ej4).
  assert (Hj4 : jobsNonneg (jobs (applyConstruction s3)))
    by (rewrite Ej4; exact Hj3).
  set (s4 := applyConstruction s3) in *.
  pose proof (applyUpkeep_jobsNonneg s4 Hj4) as Hj5.
  destruct (applyUpkeep_frame s4) as (Eg & Ew & _ & _ & Hf5 & _).
  set (s5 := applyUpkeep s4) in *.
  destruct (applyTaxes_frame s5) as (_ & Ej6 & _ & Ef6 & Ew6 & Hg6).
  destruct Hr4 as (Hg4 & _ & Hw4).
  split.
  - unfold resourcesNonneg. rewrite Ef6, Ew6. repeat split; lia.
  - rewrite Ej6. exact Hj5.
Qed.

Lemma sound_constructor : sound (constructor None).
Proof.
  unfold sound, resourcesNonneg, jobsNonneg. cbn.
  split; [lia | split; [lia | constructor]].
Qed.

Lemma sound_enqueue (a : Action) (e : Engine) :
  sound e -> sound (fst (enqueueAction a e)).
Proof.
  intros (Hr & Hj & Hq). unfold enqueueAction.
  destruct (validateActionParams a) eqn:Hv; cbn [fst].
  - split; [exact Hr | split; [exact Hj |]]. cbn [actionQueue].
    apply Forall_app. split; [exact Hq |].
    constructor; [| constructor].
    apply validateActionParams_iff, Hv.
  - split; [exact Hr | split; [exact Hj | exact Hq]].
Qed.

Lemma sound_tick (e : Engine) : sound e -> sound (tick e).
Proof.
  intros H. destruct (beforeClamp_sound e H) as (Hr & Hj).
  unfold sound. rewrite tick_state, tick_clears_queue.
  destruct (clampResources_frame (beforeClamp e)) as (_ & Ej & _).
  rewrite Ej.
  split; [apply clampResources_nonneg | split; [exact Hj | apply Forall_nil]].
Qed.

Lemma reachable_sound (e : Engine) : reachable e -> sound e.
Proof.
  induction 1.
  - apply sound_constructor.
  - apply sound_enqueue; assumption.
  - apply sound_tick; assumption.
Qed.

(** C8.  In every reachable engine the state that reaches the clamp of a
    tick already has gold, food and wood at zero or more, so the clamp
    returns it unchanged. *)
Theorem clamp_never_triggers (e : Engine) (H : reachable e) :
  0 <= gold (beforeClamp e) /\ 0 <= food (beforeClamp e) /\
  0 <= wood (beforeClamp e) /\
  clampResources (beforeClamp e) = beforeClamp e /\
  state (tick e) = beforeClamp e.
Proof.
  destruct (beforeClamp_sound e (reachable_sound e H)) as (Hr & _).
  pose proof (clampResources_idle _ Hr) as Hc.
  destruct Hr as (Hg & Hf & Hw).
  rewrite tick_state. auto.
Qed.

Lemma clamp_never_triggers_witness :
  let e := submit (buyFood 30) (submit (hire 3) (constructor None)) in
  reachable e /\
  clampResources (beforeClamp e) = beforeClamp e /\
  state (tick e) = beforeClamp e.
Proof.
  assert (Hr : reachable (submit (buyFood 30)
                                 (submit (hire 3) (constructor None))))
    by (unfold submit; apply reach_enqueue, reach_enqueue, reach_new).
  split; [exact Hr |].
  destruct (clamp_never_triggers _ Hr) as (_ & _ & _ & Hc & Ht).
  split; [exact Hc | exact Ht].
Defined.

(** C9.  After a tick, gold, food and wood are zero or more: from any
    engine state whatever, hence from every reachable one. *)
Theorem tick_resources_nonneg (e : Engine) :
  0 <= gold (state (tick e)) /\ 0 <= food (state (tick e)) /\
  0 <= wood (state (tick e)).
Proof.
  rewrite tick_state. apply clampResources_nonneg.
Qed.

(** ** Jobs and workforce *)

Lemma assignJobs_staffs (a : QueuedAction) (s : GameState) :
  admitted a -> type (queued_action a) = "AssignJobs" ->
  validateActionAtApplyTime a s = Valid ->
  staffed (applyAction a s).
Proof.
  intros Ha Ht. pose proof (admitted_kind a Ha) as K.
  assert (Hk : kindOf (type (queued_action a)) = KAssignJobs)
    by (rewrite Ht; reflexivity).
  unfold staffed, jobsNonneg, jobsSum, validateActionAtApplyTime,
    applyAction.
  rewrite Hk in *. cbn zeta in *.
  split_tests; simpl_state; [| discriminate].
  intros _. split; [exact K | assumption].
Qed.

(** An admitted action that is neither [Hire] nor [Fire] keeps every
    worker in a job. *)
Lemma applyIfValid_staffed (a : QueuedAction) (s : GameState) :
  admitted a ->
  type (queued_action a) <> "Hire" -> type (queued_action a) <> "Fire" ->
  staffed s -> staffed (applyIfValid a s).
Proof.
  intros Ha Hh Hf Hs. pose proof (admitted_kind a Ha) as K.
  pose proof (kindOf_name (type (queued_action a))) as N.
  unfold applyIfValid.
  destruct (validateActionAtApplyTime a s) eqn:Hv; simpl_state;
    [| exact Hs].
  destruct (kindOf (type (queued_action a))) eqn:Hk; try contradiction.
  - apply assignJobs_staffs; assumption.
  - unfold applyAction. rewrite Hk. exact Hs.
  - unfold applyAction. rewrite Hk. exact Hs.
Qed.

Lemma late_is_not_hire_fire (a : QueuedAction) :
  2 <= priority a ->
  type (queued_action a) <> "Hire" /\ type (queued_action a) <> "Fire".
Proof.
  intros Hp. destruct (priority_by_name a) as (Hh & Hf & _).
  split; intros E; [apply Hh in E | apply Hf in E]; lia.
Qed.

Lemma applyEach_staffed_late (l : list QueuedAction) (s : GameState) :
  Forall admitted l -> Forall (fun b => 2 <= priority b) l ->
  staffed s -> staffed (st (applyEach l s)).
Proof.
  revert s. induction l as [| a l IH]; intros s Ha Hp Hs; [exact Hs |].
  rewrite applyEach_cons. inversion Ha; subst. inversion Hp; subst.
  apply IH; try assumption.
  destruct (late_is_not_hire_fire a); [assumption |].
  apply applyIfValid_staffed; assumption.
Qed.

Lemma applyEach_assign_staffed (l : list QueuedAction) (s : GameState) :
  StronglySorted byPriority l -> Forall admitted l ->
  (exists x, In x (applied (applyEach l s)) /\ log_type x = "AssignJobs") ->
  staffed (st (applyEach l s)).
Proof.
  intros Hsorted. revert s.
  induction Hsorted as [| a l Hl IH Hal]; intros s Ha (x & Hin & Hx).
  - destruct Hin.
  - inversion Ha as [| ? ? Haa Hrest]; subst.
    rewrite applyEach_cons. unfold applyIfValid.
    cbn [applyEach] in Hin.
    destruct (validateActionAtApplyTime a s) eqn:Hv; simpl_state.
    + destruct Hin as [<- | Hin].
      * cbn in Hx.
        apply applyEach_staffed_late; [assumption | |].
        -- destruct (priority_by_name a) as (_ & _ & Hp & _).
           eapply Forall_impl; [| exact Hal].
           unfold byPriority. intros b Hb. rewrite (Hp Hx) in Hb. exact Hb.
        -- apply assignJobs_staffs; assumption.
      * apply IH; [assumption |]. exists x. split; assumption.
    + apply IH; [assumption |]. exists x. split; assumption.
Qed.

Lemma applyEach_untouched_staffed (l : list QueuedAction) (s : GameState) :
  Forall admitted l -> staffed s ->
  (forall x, In x (applied (applyEach l s)) ->
             log_type x <> "Hire" /\ log_type x <> "Fire") ->
  staffed (st (applyEach l s)).
Proof.
  revert s. induction l as [| a l IH]; intros s Ha Hs Hno; [exact Hs |].
  inversion Ha as [| ? ? Haa Hrest]; subst.
  rewrite applyEach_cons. unfold applyIfValid.
  cbn [applyEach] in Hno.
  destruct (validateActionAtApplyTime a s) eqn:Hv; simpl_state.
  - apply IH; [assumption | |].
    + destruct (Hno (appliedEntry a)) as (Hh & Hf); [left; reflexivity |].
      cbn in Hh, Hf.
      pose proof (applyIfValid_staffed a s Haa Hh Hf Hs) as H.
      unfold applyIfValid in H. rewrite Hv in H. exact H.
    + intros x Hx. apply Hno. right. exact Hx.
  - apply IH; assumption.
Qed.

(** The phases after the actions keep every worker in a job: only upkeep
    touches workers and jobs, and it shrinks both alike. *)
Lemma phases_staffed (t : Z) (s : GameState) :
  staffed s ->
  staffed (clampResources
             (applyTaxes
                (applyUpkeep
                   (applyConstruction (applyProduction (set_turn t s)))))).
Proof.
  intros Hs.
  assert (H3 : staffed (applyProduction (set_turn t s))) by exact Hs.
  set (s3 := applyProduction (set_turn t s)) in *.
  assert (H4 : staffed (applyConstruction s3)).
  { destruct (applyConstruction_frame s3) as (_ & _ & Ew & Ej).
    unfold staffed. rewrite Ew, Ej. exact H3. }
  apply applyUpkeep_staffed in H4.
  set (s5 := applyUpkeep (applyConstruction s3)) in *.
  destruct (applyTaxes_frame s5) as (Ew & Ej & _).
  unfold staffed.
  destruct (clampResources_frame (applyTaxes s5)) as (Ew' & Ej' & _).
  rewrite Ew', Ej', Ew, Ej. exact H4.
Qed.

(** C1, as the code has it.  From a reachable engine, a tick ends with the
    four job counts adding up to [workers] whenever an [AssignJobs] was
    accepted in that tick, and also whenever the counts added up to
    [workers] before the tick and no [Hire] or [Fire] was accepted in
    it. *)
Theorem tick_jobs_sum_workers (e : Engine) (H : reachable e)
        (Happly : assignJobsAccepted e \/
                  (jobsSum (jobs (state e)) = workers (state e) /\
                   workforceUntouched e)) :
  jobsSum (jobs (state (tick e))) = workers (state (tick e)).
Proof.
  destruct (reachable_sound e H) as (_ & Hj & Hq).
  pose proof (sortActionQueue_admitted _ Hq) as Hsq.
  rewrite tick_state, beforeClamp_unfold.
  apply phases_staffed.
  destruct Happly as [Hassign | (Hsum & Hno)].
  - apply applyEach_assign_staffed;
      [apply sortActionQueue_sorted | exact Hsq | exact Hassign].
  - apply applyEach_untouched_staffed;
      [exact Hsq | split; assumption | exact Hno].
Qed.

(** C1 as stated does not hold.  The starting state itself has five
    workers and four jobs, and a tick with an empty queue keeps it so; and
    from a reachable engine in which the jobs do add up to the workforce, a
    tick that accepts [Hire(1)] and no [AssignJobs] ends with six workers
    and five jobs. *)
Lemma tick_jobs_sum_can_differ :
  (reachable (constructor None) /\
   jobsSum (jobs (state (tick (constructor None)))) = 4 /\
   workers (state (tick (constructor None))) = 5) /\
  (let e := submit (hire 1)
                   (tick (submit (assignJobs 2 1 1 1) (constructor None))) in
   reachable e /\
   jobsSum (jobs (state e)) = workers (state e) /\
   jobsSum (jobs (state (tick e))) = 5 /\
   workers (state (tick e)) = 6) /\
  ~ (forall e, reachable e ->
               jobsSum (jobs (state (tick e))) = workers (state (tick e))).
Proof.
  split; [| split].
  - split; [apply reach_new | split; reflexivity].
  - split; [| repeat split].
    unfold submit. apply reach_enqueue, reach_tick, reach_enqueue, reach_new.
  - intros H. specialize (H (constructor None) reach_new).
    vm_compute in H. discriminate H.
Qed.

Lemma tick_jobs_sum_workers_witness :
  let e := submit (assignJobs 2 1 1 1) (constructor None) in
  reachable e /\ assignJobsAccepted e /\
  jobsSum (jobs (state (tick e))) = workers (state (tick e)).
Proof.
  assert (Hr : reachable (submit (assignJobs 2 1 1 1) (constructor None)))
    by (unfold submit; apply reach_enqueue, reach_new).
  assert (Ha : assignJobsAccepted
                 (submit (assignJobs 2 1 1 1) (constructor None))).
  { exists (appliedEntry (mkQueued (assignJobs 2 1 1 1) 0)).
    split; [left; reflexivity | reflexivity]. }
  split; [exact Hr | split; [exact Ha |]].
  exact (tick_jobs_sum_workers _ Hr (or_introl Ha)).
Defined.

(** ** Rejections *)

(** C6.  An action that fails apply-time validation leaves the state as it
    was before it (the loop moves on to the next action from that same
    state), the actions after it are processed as if it had not been
    queued, and the tick leaves an empty queue, so the next tick does not
    see it again.  With 5 gold at castle level 0 a [StartUpgrade] is
    rejected, with the reason "need 10, have 5" when no upgrade is under
    way, and the rest of the queue is processed. *)
Theorem rejection_is_local :
  (forall (l1 l2 : list QueuedAction) (a : QueuedAction) (s : GameState)
          (err : string),
     validateActionAtApplyTime a (st (applyEach l1 s)) = Invalid err ->
     let before := st (applyEach l1 s) in
     st (applyEach (l1 ++ [a]) s) = before /\
     st (applyEach (l1 ++ a :: l2) s) = st (applyEach l2 before) /\
     applied (applyEach (l1 ++ a :: l2) s)
       = (applied (applyEach l1 s) ++ applied (applyEach l2 before))%list /\
     rejected (applyEach (l1 ++ a :: l2) s)
       = (rejected (applyEach l1 s)
          ++ rejectionLine a err :: rejected (applyEach l2 before))%list /\
     st (applyEach (l1 ++ a :: l2) s) = st (applyEach (l1 ++ l2) s) /\
     applied (applyEach (l1 ++ a :: l2) s)
       = applied (applyEach (l1 ++ l2) s)) /\
  (forall e : Engine,
     actionQueue (tick e) = [] /\
     tickApplied (tick e) = [] /\ tickRejected (tick e) = []) /\
  (forall (a : QueuedAction) (s : GameState),
     type (queued_action a) = "StartUpgrade" ->
     gold s = 5 -> castleLevel s = 0 ->
     is_valid (validateActionAtApplyTime a s) = false /\
     (active (upgradeInProgress s) = false ->
      validateActionAtApplyTime a s
      = Invalid "Not enough gold to start upgrade (need 10, have 5)") /\
     forall l : list QueuedAction,
       st (applyEach (a :: l) s) = st (applyEach l s) /\
       applied (applyEach (a :: l) s) = applied (applyEach l s)).
Proof.
  split; [| split].
  - intros l1 l2 a s err Hv before.
    destruct (applyEach_app l1 [a] s) as (S1 & _).
    destruct (applyEach_app l1 (a :: l2) s) as (S2 & A2 & R2).
    destruct (applyEach_app l1 l2 s) as (S3 & A3 & _).
    destruct (applyEach_rejected_one a l2 _ err Hv) as (S4 & A4 & R4).
    destruct (applyEach_rejected_one a [] _ err Hv) as (S5 & _).
    fold before in S1, S2, A2, R2, S3, A3, S4, A4, R4, S5.
    rewrite S1, S2, A2, R2, S3, A3, S4, A4, R4, S5.
    repeat split.
  - intros e. repeat split.
  - intros a s Ht Hg Hc.
    assert (Hk : kindOf (type (queued_action a)) = KStartUpgrade)
      by (rewrite Ht; reflexivity).
    assert (Hv : is_valid (validateActionAtApplyTime a s) = false).
    { unfold validateActionAtApplyTime. rewrite Hk, Hg, Hc.
      destruct (active (upgradeInProgress s)); reflexivity. }
    split; [exact Hv | split].
    + intros Ha. unfold validateActionAtApplyTime.
      rewrite Hk, Hg, Hc, Ha. reflexivity.
    + intros l. destruct (validateActionAtApplyTime a s) as [| err] eqn:E;
        [discriminate Hv |].
      destruct (applyEach_rejected_one a l s err E) as (S1 & A1 & _).
      split; assumption.
Qed.

Lemma rejection_is_local_witness :
  let s := mkState 3 5 18 0 5 0 (mkJobs 2 1 1 1)
                   (mkUpgrade false None None None) in
  let q := [mkQueued startUpgrade 3; mkQueued (buyFood 2) 3] in
  validateActionAtApplyTime (mkQueued startUpgrade 3) s
  = Invalid "Not enough gold to start upgrade (need 10, have 5)" /\
  st (applyEach q s) = applyAction (mkQueued (buyFood 2) 3) s /\
  applied (applyEach q s) = [appliedEntry (mkQueued (buyFood 2) 3)].
Proof.
  destruct rejection_is_local as (Hgen & _ & Hex).
  destruct (Hex (mkQueued startUpgrade 3)
                (mkState 3 5 18 0 5 0 (mkJobs 2 1 1 1)
                         (mkUpgrade false None None None))
                eq_refl eq_refl eq_refl) as (_ & Hreason & _).
  pose proof (Hreason eq_refl) as Hv.
  destruct (Hgen [] [mkQueued (buyFood 2) 3] (mkQueued startUpgrade 3)
                 (mkState 3 5 18 0 5 0 (mkJobs 2 1 1 1)
                          (mkUpgrade false None None None))
                 _ Hv) as (_ & Hst & Hap & _).
  split; [exact Hv | split].
  - exact Hst.
  - exact Hap.
Defined.

(** ** The order of application *)




(** ** The upgrade *)

(** What one entry of the queue does to the upgrade: nothing, unless it is
    a [StartUpgrade] that is accepted, which needs the upgrade inactive. *)
Lemma applyIfValid_upgrade (a : QueuedAction) (s : GameState) :
  upgradeInProgress (applyIfValid a s) = upgradeInProgress s \/
  (type (queued_action a) = "StartUpgrade" /\
   validateActionAtApplyTime a s = Valid /\
   active (upgradeInProgress s) = false /\
   upgradeInProgress (applyIfValid a s)
   = mkUpgrade true (Some (castleLevel s + 1)) (Some 0)
               (Some (12 * (castleLevel s + 1)))).
Proof.
  pose proof (kindOf_name (type (queued_action a))) as N.
  unfold applyIfValid, validateActionAtApplyTime, applyAction.
  destruct (kindOf (type (queued_action a))); cbn zeta;
    try (left; match goal with
               | |- context [if ?c then _ else _] => destruct c
               end; reflexivity).
  destruct (active (upgradeInProgress s)) eqn:Ha;
    [left; reflexivity |].
  destruct (gold s <? 10 * (castleLevel s + 1));
    [left; reflexivity |].
  right. repeat split. exact N.
Qed.

Lemma applyEach_keeps_active_upgrade (q : list QueuedAction)
      (s : GameState) :
  active (upgradeInProgress s) = true ->
  upgradeInProgress (st (applyEach q s)) = upgradeInProgress s.
Proof.
  revert s. induction q as [| a q IH]; intros s Ha; [reflexivity |].
  rewrite applyEach_cons.
  destruct (applyIfValid_upgrade a s) as [E | (_ & _ & Hoff & _)];
    [| congruence].
  rewrite IH; [exact E | rewrite E; exact Ha].
Qed.



(** The apply phase is where the six workers of C2 are guaranteed: upkeep
    later in the same tick still takes workers away when the food does not
    cover six.  Here both actions are accepted and the tick ends with
    three workers. *)
Example hire_assign_then_shortage :
  let s := mkState 0 10 0 0 4 0 (mkJobs 2 1 1 0)
                   (mkUpgrade false None None None) in
  let e := mkEngine s [mkQueued (assignJobs 6 0 0 0) 0;
                       mkQueued (hire 2) 0] in
  workers (state (fst (applyQueuedActions e))) = 6 /\
  List.length (tickApplied e) = 2%nat /\
  workers (state (tick e)) = 3 /\
  jobs (state (tick e)) = mkJobs 3 0 0 0.
Proof. repeat split. Qed.

(** * Further properties of the engine *)

(** ** What the actions leave alone *)

Lemma applyIfValid_frame (a : QueuedAction) (s : GameState) :
  turn (applyIfValid a s) = turn s /\
  wood (applyIfValid a s) = wood s /\
  castleLevel (applyIfValid a s) = castleLevel s.
Proof.
  unfold applyIfValid, applyAction.
  destruct (is_valid (validateActionAtApplyTime a s)); [| repeat split].
  destruct (kindOf (type (queued_action a))); repeat split.
Qed.

Lemma applyEach_frame (q : list QueuedAction) (s : GameState) :
  turn (st (applyEach q s)) = turn s /\
  wood (st (applyEach q s)) = wood s /\
  castleLevel (st (applyEach q s)) = castleLevel s.
Proof.
  revert s. induction q as [| a q IH]; intros s; [repeat split |].
  rewrite applyEach_cons.
  destruct (IH (applyIfValid a s)) as (E1 & E2 & E3).
  destruct (applyIfValid_frame a s) as (F1 & F2 & F3).
  rewrite E1, E2, E3. auto.
Qed.

Lemma applyUpkeep_turn (s : GameState) : turn (applyUpkeep s) = turn s.
Proof. rewrite applyUpkeep_eq. destruct (0 <=? _); reflexivity. Qed.

Lemma applyTaxes_turn (s : GameState) :
  turn (applyTaxes s) = turn s /\
  castleLevel (applyTaxes s) = castleLevel s.
Proof. unfold applyTaxes. destruct (0 <? _); split; reflexivity. Qed.

Lemma clampResources_turn (s : GameState) :
  turn (clampResources s) = turn s /\
  castleLevel (clampResources s) = castleLevel s.
Proof. split; reflexivity. Qed.

Lemma tick_turn (e : Engine) : turn (state (tick e)) = turn (state e) + 1.
Proof.
  rewrite tick_state, beforeClamp_unfold.
  set (s1 := st (applyEach (sortActionQueue (actionQueue e)) (state e))).
  set (s2 := set_turn (turn (state e) + 1) s1).
  set (s3 := applyProduction s2).
  destruct (clampResources_turn
              (applyTaxes (applyUpkeep (applyConstruction s3)))) as (E & _).
  rewrite E.
  destruct (applyTaxes_turn (applyUpkeep (applyConstruction s3)))
    as (E' & _).
  rewrite E', applyUpkeep_turn.
  destruct (applyConstruction_frame s3) as (E'' & _).
  rewrite E''. reflexivity.
Qed.

Lemma ticks_turn (n : nat) (e : Engine) :
  turn (state (ticks n e)) = turn (state e) + Z.of_nat n.
Proof.
  revert e. induction n as [| n IH]; intros e.
  - cbn [ticks Z.of_nat]. lia.
  - cbn [ticks]. rewrite IH, tick_turn. lia.
Qed.

(** X1.  Whatever the queue holds, a tick moves the turn counter up by
    exactly one ([n] ticks by [n]), and both records the tick logs carry
    the new turn number. *)
Theorem tick_counts_turns (e : Engine) (n : nat) :
  turn (state (tick e)) = turn (state e) + 1 /\
  turn (state (ticks n e)) = turn (state e) + Z.of_nat n /\
  applied_turn (fst (tickLogs e)) = turn (state (tick e)) /\
  state_turn (snd (tickLogs e)) = turn (state (tick e)).
Proof.
  pose proof (tick_turn e) as H.
  split; [exact H | split; [apply ticks_turn | split]].
  - cbn [tickLogs fst applied_turn]. symmetry. exact H.
  - reflexivity.
Qed.

(** ** Every queued action is looked at once *)

Lemma applied_is_accepted (q : list QueuedAction) (s : GameState) :
  applied (applyEach q s) = map appliedEntry (acceptedOf q s).
Proof.
  revert s. induction q as [| a q IH]; intros s; [reflexivity |].
  cbn [applyEach acceptedOf].
  destruct (validateActionAtApplyTime a s); cbn [applied map];
    rewrite IH; reflexivity.
Qed.

Lemma applyEach_lengths (q : list QueuedAction) (s : GameState) :
  (List.length (applied (applyEach q s))
   + List.length (rejected (applyEach q s)))%nat
  = List.length q.
Proof.
  revert s. induction q as [| a q IH]; intros s; [reflexivity |].
  cbn [applyEach].
  destruct (validateActionAtApplyTime a s);
    cbn [applied rejected List.length].
  - rewrite <- (IH (applyAction a s)). lia.
  - rewrite <- (IH s). lia.
Qed.

Lemma applyEach_examines (q : list QueuedAction) (s : GameState)
      (x : QueuedAction) :
  In x q ->
  In (appliedEntry x) (applied (applyEach q s)) \/
  exists err, In (rejectionLine x err) (rejected (applyEach q s)).
Proof.
  revert s. induction q as [| a q IH]; intros s Hin; [destruct Hin |].
  cbn [applyEach].
  destruct (validateActionAtApplyTime a s) as [| err] eqn:Hv;
    cbn [applied rejected].
  - destruct Hin as [-> | Hin]; [left; left; reflexivity |].
    destruct (IH (applyAction a s) Hin) as [H | (err' & H)].
    + left. right. exact H.
    + right. exists err'. exact H.
  - destruct Hin as [-> | Hin].
    + right. exists err. left. reflexivity.
    + destruct (IH s Hin) as [H | (err' & H)].
      * left. exact H.
      * right. exists err'. right. exact H.
Qed.

Lemma acceptedOf_incl (q : list QueuedAction) (s : GameState)
      (x : QueuedAction) :
  In x (acceptedOf q s) -> In x q.
Proof.
  revert s. induction q as [| a q IH]; intros s Hin; [destruct Hin |].
  cbn [acceptedOf] in Hin.
  destruct (validateActionAtApplyTime a s).
  - destruct Hin as [-> | Hin]; [left; reflexivity |].
    right. eapply IH, Hin.
  - right. eapply IH, Hin.
Qed.

(** X2.  Each tick accounts for every entry of the queue exactly once: the
    numbers of applied and of rejected entries add up to the length of
    the queue, and every applied entry is the record of an entry that was
    in the queue. *)
Theorem tick_accounts_for_queue (e : Engine) :
  (List.length (tickApplied e) + List.length (tickRejected e))%nat
  = List.length (actionQueue e) /\
  (forall x : AppliedActionLog,
     In x (tickApplied e) ->
     exists a, In a (actionQueue e) /\ x = appliedEntry a) /\
  (forall a : QueuedAction,
     In a (actionQueue e) ->
     In (appliedEntry a) (tickApplied e) \/
     exists err, In (rejectionLine a err) (tickRejected e)).
Proof.
  unfold tickApplied, tickRejected, applyQueuedActions. cbn [snd].
  pose proof (sortActionQueue_perm (actionQueue e)) as Hp.
  split; [| split].
  - rewrite applyEach_lengths. apply Permutation_length, Hp.
  - intros x Hx. rewrite applied_is_accepted in Hx.
    apply in_map_iff in Hx. destruct Hx as (a & <- & Ha).
    exists a. split; [| reflexivity].
    apply acceptedOf_incl in Ha.
    eapply Permutation_in; [exact Hp | exact Ha].
  - intros a Ha. apply applyEach_examines.
    eapply Permutation_in; [apply Permutation_sym, Hp | exact Ha].
Qed.

(** X3.  The turn [enqueueAction] promises is kept: an accepted action
    sits in the queue of the next tick, that tick produces the state of
    the promised turn, applies or rejects the action, and leaves the
    queue empty. *)
Theorem enqueue_promise_kept (a : Action) (e : Engine)
        (H : queued (snd (enqueueAction a e)) = true) :
  let e' := fst (enqueueAction a e) in
  let entry := mkQueued a (turn (state e)) in
  applyAtTurn (snd (enqueueAction a e)) = Some (turn (state (tick e'))) /\
  In entry (actionQueue e') /\
  (In (appliedEntry entry) (tickApplied e') \/
   exists err, In (rejectionLine entry err) (tickRejected e')) /\
  actionQueue (tick e') = [].
Proof.
  intros e' entry. subst e'.
  unfold enqueueAction in *.
  destruct (validateActionParams a); [| discriminate H].
  cbn [fst snd applyAtTurn].
  assert (Hin : In entry (actionQueue e ++ [entry])%list)
    by (apply in_or_app; right; left; reflexivity).
  split; [| split; [exact Hin | split; [| reflexivity]]].
  - rewrite tick_turn. reflexivity.
  - unfold tickApplied, tickRejected, applyQueuedActions. cbn [snd].
    apply applyEach_examines.
    eapply Permutation_in;
      [apply Permutation_sym, sortActionQueue_perm | exact Hin].
Qed.

Lemma enqueue_promise_kept_witness :
  let e' := fst (enqueueAction (buyFood 3) (constructor None)) in
  applyAtTurn (snd (enqueueAction (buyFood 3) (constructor None)))
  = Some (turn (state (tick e'))) /\
  actionQueue (tick e') = [].
Proof.
  destruct (enqueue_promise_kept (buyFood 3) (constructor None) eq_refl)
    as (H1 & _ & _ & H2).
  split; [exact H1 | exact H2].
Defined.

(** ** What the actions can and cannot do to the resources *)

Lemma applyIfValid_spends (g f w : Z) (a : QueuedAction) (s : GameState) :
  admitted a ->
  (gold s <= g /\ f <= food s /\ worth s <= w /\ 0 <= castleLevel s) ->
  gold (applyIfValid a s) <= g /\ f <= food (applyIfValid a s) /\
  worth (applyIfValid a s) <= w /\ 0 <= castleLevel (applyIfValid a s).
Proof.
  intros Ha (Hg & Hf & Hw & Hc). pose proof (admitted_kind a Ha) as K.
  unfold worth, applyIfValid, validateActionAtApplyTime, applyAction in *.
  cbn zeta in K.
  destruct (kindOf (type (queued_action a))); cbn zeta;
    try destruct (active (upgradeInProgress s));
    split_tests; simpl_state; repeat split; lia.
Qed.

(** X4.  The apply phase of a tick never touches the turn, the wood or the
    castle level.  On a queue of admitted actions and a castle level that
    is not negative it only spends: gold does not rise, food does not
    fall, and the worth of the state (gold, plus food at 1, plus workers
    at the hiring price of 5) does not rise. *)
Theorem apply_phase_only_spends (q : list QueuedAction) (s : GameState) :
  let s' := st (applyEach q s) in
  turn s' = turn s /\ wood s' = wood s /\ castleLevel s' = castleLevel s /\
  (Forall admitted q -> 0 <= castleLevel s ->
   gold s' <= gold s /\ food s <= food s' /\ worth s' <= worth s).
Proof.
  intros s'. subst s'.
  destruct (applyEach_frame q s) as (E1 & E2 & E3).
  split; [exact E1 | split; [exact E2 | split; [exact E3 |]]].
  intros Hq Hc.
  pose proof (applyEach_keeps
                (fun x => gold x <= gold s /\ food s <= food x /\
                          worth x <= worth s /\ 0 <= castleLevel x)
                (applyIfValid_spends (gold s) (food s) (worth s))
                q s Hq) as H.
  cbn beta in H.
  destruct H as (H1 & H2 & H3 & _); [repeat split; lia |].
  split; [exact H1 | split; [exact H2 | exact H3]].
Qed.

Lemma apply_phase_only_spends_witness :
  let s := mkState 0 25 18 0 5 0 (mkJobs 2 1 1 0)
                   (mkUpgrade false None None None) in
  let q := [mkQueued (hire 2) 0; mkQueued (buyFood 4) 0] in
  gold (st (applyEach q s)) <= 25 /\ 18 <= food (st (applyEach q s)) /\
  worth (st (applyEach q s)) <= worth s.
Proof.
  destruct (apply_phase_only_spends
              [mkQueued (hire 2) 0; mkQueued (buyFood 4) 0]
              (mkState 0 25 18 0 5 0 (mkJobs 2 1 1 0)
                       (mkUpgrade false None None None)))
    as (_ & _ & _ & H).
  apply H.
  - constructor; [apply validateActionParams_iff; reflexivity |].
    constructor; [apply validateActionParams_iff; reflexivity |].
    constructor.
  - cbn. lia.
Defined.

(** ** Upkeep never takes more than half *)

(** X5.  From a state with food and workers at zero or more, upkeep leaves
    no negative food, never adds workers and never removes more than half
    of them (rounded up); it removes none when the food covers one unit
    per worker. *)
Theorem upkeep_loss_is_bounded (s : GameState)
        (Hfood : 0 <= food s) (Hworkers : 0 <= workers s) :
  0 <= food (applyUpkeep s) /\
  workers s / 2 <= workers (applyUpkeep s) <= workers s /\
  (workers s <= food s -> workers (applyUpkeep s) = workers s).
Proof.
  pose proof (ceilHalf_spec (- (food s - workers s))) as Hceil.
  pose proof (Z.div_mod (workers s) 2 ltac:(lia)) as Hd.
  pose proof (Z.mod_pos_bound (workers s) 2 ltac:(lia)) as Hm.
  rewrite applyUpkeep_eq.
  destruct (Z.leb_spec 0 (food s - workers s)); cbn -[Z.max Z.min Z.div];
    repeat split; lia.
Qed.

Lemma upkeep_loss_is_bounded_witness :
  let s := mkState 3 0 0 0 7 0 (mkJobs 7 0 0 0)
                   (mkUpgrade false None None None) in
  0 <= food (applyUpkeep s) /\ 3 <= workers (applyUpkeep s) <= 7.
Proof.
  destruct (upkeep_loss_is_bounded
              (mkState 3 0 0 0 7 0 (mkJobs 7 0 0 0)
                       (mkUpgrade false None None None))
              ltac:(cbn; lia) ltac:(cbn; lia)) as (H1 & H2 & _).
  split; [exact H1 | exact H2].
Defined.

(** ** The shape of reachable states *)

Lemma applyIfValid_wellFormed (a : QueuedAction) (s : GameState) :
  admitted a -> wellFormed s -> wellFormed (applyIfValid a s).
Proof.
  intros Ha (Ht & Hw & Hc & Hu). pose proof (admitted_kind a Ha) as K.
  unfold wellFormed, upgradeWellFormed, applyIfValid,
    validateActionAtApplyTime, applyAction in *.
  cbn zeta in K.
  destruct (kindOf (type (queued_action a))); cbn zeta;
    try (split_tests; simpl_state; repeat split; try assumption; lia).
  destruct (active (upgradeInProgress s)) eqn:Ea; simpl_state;
    [repeat split; assumption |].
  split_tests; simpl_state; repeat split; try assumption; lia.
Qed.

Lemma applyConstruction_wellFormed (s : GameState) :
  wellFormed s -> wellFormed (applyConstruction s).
Proof.
  unfold wellFormed, upgradeWellFormed. rewrite applyConstruction_eq.
  intros (Ht & Hw & Hc & Hu).
  destruct (upgradeInProgress s) as [[|] [t |] [p |] [w |]] eqn:Eu;
    cbn -[Z.min Z.max Z.mul] in *; try contradiction;
    [| rewrite Eu; repeat split; auto].
  destruct (Z.leb_spec w (p + Z.min (Z.max 0 (builders (jobs s)))
                                    (Z.max 0 (wood s))));
    cbn -[Z.min Z.max Z.mul]; repeat split; lia.
Qed.

Lemma after_upkeep_wellFormed (s : GameState) :
  wellFormed s ->
  wellFormed (clampResources (applyTaxes (applyUpkeep s))).
Proof.
  unfold wellFormed, upgradeWellFormed.
  intros (Ht & Hw & Hc & Hu).
  destruct (clampResources_frame (applyTaxes (applyUpkeep s)))
    as (Ew & _ & Eu).
  destruct (clampResources_turn (applyTaxes (applyUpkeep s))) as (Et & Ec).
  destruct (applyTaxes_frame (applyUpkeep s)) as (Ew' & _ & Eu' & _).
  destruct (applyTaxes_turn (applyUpkeep s)) as (Et' & Ec').
  destruct (applyUpkeep_frame s) as (_ & _ & Ec'' & Eu'' & _).
  pose proof (applyUpkeep_turn s) as Et''.
  rewrite Ew, Eu, Et, Ec, Ew', Eu', Et', Ec', Ec'', Eu'', Et''.
  repeat split; try assumption.
  rewrite applyUpkeep_eq.
  destruct (0 <=? food s - workers s); cbn -[Z.max]; lia.
Qed.

Lemma production_after_turn (t : Z) (s : GameState) :
  turn (applyProduction (set_turn t s)) = t /\
  workers (applyProduction (set_turn t s)) = workers s /\
  castleLevel (applyProduction (set_turn t s)) = castleLevel s /\
  upgradeInProgress (applyProduction (set_turn t s)) = upgradeInProgress s.
Proof. repeat split. Qed.

Lemma wellFormed_tick (e : Engine) :
  Forall admitted (actionQueue e) -> wellFormed (state e) ->
  wellFormed (state (tick e)).
Proof.
  intros Hq Hs. rewrite tick_state, beforeClamp_unfold.
  apply after_upkeep_wellFormed, applyConstruction_wellFormed.
  pose proof (applyEach_keeps wellFormed applyIfValid_wellFormed
                (sortActionQueue (actionQueue e)) (state e)
                (sortActionQueue_admitted _ Hq) Hs) as H.
  set (s1 := st (applyEach (sortActionQueue (actionQueue e)) (state e)))
    in *.
  destruct H as (Ht & Hw & Hc & Hu).
  destruct Hs as (Ht0 & _).
  destruct (production_after_turn (turn (state e) + 1) s1)
    as (E1 & E2 & E3 & E4).
  unfold wellFormed, upgradeWellFormed in *.
  rewrite E1, E2, E3, E4.
  split; [lia | split; [exact Hw | split; [exact Hc | exact Hu]]].
Qed.

Lemma reachable_wellFormed (e : Engine) :
  reachable e -> wellFormed (state e).
Proof.
  induction 1 as [| a e Hr IH | e Hr IH].
  - unfold wellFormed, upgradeWellFormed. cbn. repeat split; lia.
  - unfold enqueueAction. destruct (validateActionParams a); exact IH.
  - apply wellFormed_tick; [apply (reachable_sound e Hr) | exact IH].
Qed.

(** X6.  In every state the engine reaches from its default start, the
    turn, the workers and the castle level are zero or more, and the
    upgrade record is either inactive with no target, progress or
    requirement, or active towards the next level, with a wood requirement
    of twelve times that level and a progress from zero up to, but short
    of, the requirement. *)
Theorem reachable_state_shape (e : Engine) (H : reachable e) :
  0 <= turn (state e) /\ 0 <= workers (state e) /\
  0 <= castleLevel (state e) /\
  (upgradeInProgress (state e) = mkUpgrade false None None None \/
   exists p : Z,
     upgradeInProgress (state e)
     = mkUpgrade true (Some (castleLevel (state e) + 1)) (Some p)
                 (Some (12 * (castleLevel (state e) + 1))) /\
     0 <= p < 12 * (castleLevel (state e) + 1)).
Proof.
  destruct (reachable_wellFormed e H) as (Ht & Hw & Hc & Hu).
  split; [exact Ht | split; [exact Hw | split; [exact Hc |]]].
  unfold upgradeWellFormed in Hu.
  destruct (upgradeInProgress (state e)) as [[|] [t |] [p |] [w |]];
    try contradiction.
  - right. exists p. destruct Hu as (-> & -> & Hp). split; [reflexivity | exact Hp].
  - left. reflexivity.
Qed.

Lemma reachable_state_shape_witness :
  let e := tick (submit startUpgrade (constructor None)) in
  reachable e /\ 0 <= workers (state e) /\
  upgradeInProgress (state e) = mkUpgrade true (Some 1) (Some 0) (Some 12).
Proof.
  assert (Hr : reachable (tick (submit startUpgrade (constructor None))))
    by (unfold submit; apply reach_tick, reach_enqueue, reach_new).
  destruct (reachable_state_shape _ Hr) as (_ & Hw & _).
  split; [exact Hr | split; [exact Hw | reflexivity]].
Defined.

(** ** The castle level *)

Lemma beforeConstruction_level (e : Engine) :
  castleLevel
    (applyProduction
       (set_turn (turn (state e) + 1)
          (st (applyEach (sortActionQueue (actionQueue e)) (state e)))))
  = castleLevel (state e) /\
  upgradeInProgress
    (applyProduction
       (set_turn (turn (state e) + 1)
          (st (applyEach (sortActionQueue (actionQueue e)) (state e)))))
  = upgradeInProgress
      (st (applyEach (sortActionQueue (actionQueue e)) (state e))).
Proof.
  destruct (applyEach_frame (sortActionQueue (actionQueue e)) (state e))
    as (_ & _ & E).
  split; [exact E | reflexivity].
Qed.

Lemma afterConstruction_level (s : GameState) :
  castleLevel (clampResources (applyTaxes (applyUpkeep s))) = castleLevel s /\
  upgradeInProgress (clampResources (applyTaxes (applyUpkeep s)))
  = upgradeInProgress s.
Proof.
  destruct (clampResources_frame (applyTaxes (applyUpkeep s)))
    as (_ & _ & Eu).
  destruct (clampResources_turn (applyTaxes (applyUpkeep s))) as (_ & Ec).
  destruct (applyTaxes_frame (applyUpkeep s)) as (_ & _ & Eu' & _).
  destruct (applyTaxes_turn (applyUpkeep s)) as (_ & Ec').
  destruct (applyUpkeep_frame s) as (_ & _ & Ec'' & Eu'' & _).
  rewrite Eu, Ec, Eu', Ec', Ec'', Eu''. split; reflexivity.
Qed.

(** X7.  Over one tick the castle level stays or goes up by exactly one,
    whatever is queued; when it goes up the tick ends with no upgrade
    active; and a tick that starts with an active upgrade and ends with
    none has raised the level. *)
Theorem castle_level_steps (e : Engine) :
  let before := state e in
  let after := state (tick e) in
  (castleLevel after = castleLevel before \/
   castleLevel after = castleLevel before + 1) /\
  (castleLevel after = castleLevel before + 1 ->
   upgradeInProgress after = mkUpgrade false None None None) /\
  (active (upgradeInProgress before) = true ->
   active (upgradeInProgress after) = false ->
   castleLevel after = castleLevel before + 1).
Proof.
  intros before after. subst before after.
  rewrite tick_state, beforeClamp_unfold.
  destruct (beforeConstruction_level e) as (Ec & Eu).
  set (s3 := applyProduction
               (set_turn (turn (state e) + 1)
                  (st (applyEach (sortActionQueue (actionQueue e))
                                 (state e))))) in *.
  destruct (afterConstruction_level (applyConstruction s3)) as (-> & ->).
  rewrite <- Ec.
  rewrite applyConstruction_eq.
  split; [| split].
  - destruct (active (upgradeInProgress s3)); [| left; reflexivity].
    destruct (geq _ _); [right | left]; reflexivity.
  - destruct (active (upgradeInProgress s3)); [| cbn; lia].
    destruct (geq _ _); cbn; [reflexivity | lia].
  - intros Ha Hoff.
    rewrite Eu, (applyEach_keeps_active_upgrade _ _ Ha), Ha in *.
    destruct (geq _ _); [reflexivity | discriminate Hoff].
Qed.

(** ** A tick with nothing to do *)

(** X8.  With an empty queue, no upgrade active, no negative resource or
    job count, and food that after production covers the workers, a tick
    is pure income: the turn goes up by one, gold by two per miner plus
    the castle level as tax, food by three per farmer less one per worker,
    wood by one per lumberjack, and nothing else changes. *)
Theorem idle_tick (e : Engine)
        (Hqueue : actionQueue e = [])
        (Hidle : active (upgradeInProgress (state e)) = false)
        (Hres : resourcesNonneg (state e))
        (Hjobs : jobsNonneg (jobs (state e)))
        (Hfed : workers (state e)
                <= food (state e) + farmers (jobs (state e)) * 3) :
  let s := state e in
  state (tick e)
  = mkState (turn s + 1)
            (gold s + miners (jobs s) * 2 + Z.max 0 (castleLevel s))
            (food s + farmers (jobs s) * 3 - workers s)
            (wood s + lumberjacks (jobs s) * 1)
            (workers s) (castleLevel s) (jobs s) (upgradeInProgress s).
Proof.
  intros s. subst s.
  rewrite tick_state, beforeClamp_unfold, Hqueue.
  cbn [sortActionQueue applyEach st].
  destruct Hres as (Hg & Hf & Hw). destruct Hjobs as (Hm & Hfa & Hl & Hb).
  set (s := state e) in *.
  set (s3 := applyProduction (set_turn (turn s + 1) s)).
  assert (E4 : applyConstruction s3 = s3).
  { unfold applyConstruction.
    change (upgradeInProgress s3) with (upgradeInProgress s).
    rewrite Hidle. reflexivity. }
  rewrite E4.
  assert (E5 : applyUpkeep s3
               = mkState (turn s + 1) (gold s + miners (jobs s) * 2)
                         (food s + farmers (jobs s) * 3 - workers s)
                         (wood s + lumberjacks (jobs s) * 1)
                         (workers s) (castleLevel s) (jobs s)
                         (upgradeInProgress s)).
  { rewrite applyUpkeep_eq.
    change (food s3 - workers s3)
      with (food s + farmers (jobs s) * 3 - workers s).
    destruct (Z.leb_spec 0 (food s + farmers (jobs s) * 3 - workers s));
      [reflexivity | lia]. }
  rewrite E5. clear E4 E5 s3.
  unfold applyTaxes. cbn [castleLevel gold].
  destruct (Z.ltb_spec 0 (1 * castleLevel s)) as [Hpos | Hneg].
  - rewrite clampResources_idle.
    + unfold set_gold. cbn [turn gold food wood workers castleLevel jobs
                            upgradeInProgress].
      f_equal. lia.
    + unfold resourcesNonneg, set_gold. cbn [gold food wood]. lia.
  - rewrite clampResources_idle.
    + f_equal. lia.
    + unfold resourcesNonneg. cbn [gold food wood]. lia.
Qed.

Lemma idle_tick_witness :
  state (tick (constructor None))
  = mkState 1 29 16 1 5 0 (mkJobs 2 1 1 0) (mkUpgrade false None None None).
Proof.
  rewrite (idle_tick (constructor None) eq_refl eq_refl).
  - reflexivity.
  - unfold resourcesNonneg. cbn. lia.
  - unfold jobsNonneg. cbn. lia.
  - cbn. lia.
Defined.

(** ** Submission order across priority classes *)

Lemma tick_unfold (e : Engine) :
  tick e = mkEngine (clampResources (beforeClamp e)) [].
Proof. reflexivity. Qed.

Lemma same_classes_same_order (q1 q2 : list QueuedAction) :
  (forall p : Z, ofPriority p q1 = ofPriority p q2) ->
  sortActionQueue q1 = sortActionQueue q2.
Proof.
  intros H. apply sortActionQueue_unique.
  - apply sortActionQueue_sorted.
  - intros p. rewrite sortActionQueue_stable. apply H.
Qed.

(** X9.  Only the order of submission inside each priority class matters:
    two engines in the same state whose queues hold, class by class, the
    same entries in the same order end the tick in the same state, with
    the same log records and the same rejections, however the classes were
    interleaved when submitted. *)
Theorem tick_ignores_interleaving (e1 e2 : Engine)
        (Hstate : state e1 = state e2)
        (Hclasses : forall p : Z,
            ofPriority p (actionQueue e1) = ofPriority p (actionQueue e2)) :
  tick e1 = tick e2 /\ tickLogs e1 = tickLogs e2 /\
  tickRejected e1 = tickRejected e2.
Proof.
  pose proof (same_classes_same_order _ _ Hclasses) as Hs.
  assert (Ht : tick e1 = tick e2).
  { rewrite !tick_unfold, !beforeClamp_unfold, Hs, Hstate. reflexivity. }
  split; [exact Ht | split].
  - unfold tickLogs, applyQueuedActions. cbn [snd].
    rewrite Ht, Hs, Hstate. reflexivity.
  - unfold tickRejected. rewrite Hs, Hstate. reflexivity.
Qed.

Lemma tick_ignores_interleaving_witness :
  let s := state (constructor None) in
  let e1 := mkEngine s [mkQueued (buyFood 2) 0; mkQueued (hire 1) 0;
                        mkQueued (buyFood 3) 0] in
  let e2 := mkEngine s [mkQueued (hire 1) 0; mkQueued (buyFood 2) 0;
                        mkQueued (buyFood 3) 0] in
  tick e1 = tick e2.
Proof.
  apply (tick_ignores_interleaving
           (mkEngine (state (constructor None))
                     [mkQueued (buyFood 2) 0; mkQueued (hire 1) 0;
                      mkQueued (buyFood 3) 0])
           (mkEngine (state (constructor None))
                     [mkQueued (hire 1) 0; mkQueued (buyFood 2) 0;
                      mkQueued (buyFood 3) 0])
           eq_refl).
  intros p. unfold ofPriority. cbn [actionQueue filter].
  change (priority (mkQueued (hire 1) 0)) with 1.
  change (priority (mkQueued (buyFood 2) 0)) with 4.
  change (priority (mkQueued (buyFood 3) 0)) with 4.
  destruct (Z.eqb_spec 4 p); destruct (Z.eqb_spec 1 p);
    try reflexivity; exfalso; lia.
Defined.

(** ** Several submissions in a row *)

Lemma submitAll_queue (l : list Action) (e : Engine) :
  state (submitAll l e) = state e /\
  actionQueue (submitAll l e)
  = (actionQueue e
     ++ map (fun a => mkQueued a (turn (state e)))
            (filter (fun a => is_valid (validateActionParams a)) l))%list.
Proof.
  unfold submitAll. revert e. induction l as [| a l IH]; intros e.
  - cbn. rewrite app_nil_r. split; reflexivity.
  - cbn [fold_left filter].
    destruct (IH (submit a e)) as (Es & Eq). rewrite Es, Eq.
    unfold submit, enqueueAction.
    destruct (validateActionParams a); cbn [fst state actionQueue is_valid map].
    + rewrite <- app_assoc. split; reflexivity.
    + split; reflexivity.
Qed.

(** X10.  After any run of submissions the queue has grown by exactly the
    syntactically valid ones, in the order they were submitted and each
    stamped with the current turn; refused submissions leave no trace, and
    the state is the same as before. *)
Theorem submissions_queue_in_order (l : list Action) (e : Engine) :
  state (submitAll l e) = state e /\
  actionQueue (submitAll l e)
  = (actionQueue e
     ++ map (fun a => mkQueued a (turn (state e)))
            (filter (fun a => is_valid (validateActionParams a)) l))%list /\
  (forall a, In a (filter (fun a => is_valid (validateActionParams a)) l)
             <-> In a l /\ syntacticallyValid a).
Proof.
  destruct (submitAll_queue l e) as (Es & Eq).
  split; [exact Es | split; [exact Eq |]].
  intros a. rewrite filter_In, <- validateActionParams_iff.
  destruct (validateActionParams a); cbn [is_valid];
    split; intros (H1 & H2); split; try assumption; try reflexivity;
    discriminate.
Qed.

(** ** Replaying the applied-actions record *)

(** The engine reads of a queue entry only the action, never the stamp. *)
Lemma same_action (a b : QueuedAction) (s : GameState) :
  queued_action a = queued_action b ->
  validateActionAtApplyTime a s = validateActionAtApplyTime b s /\
  applyAction a s = applyAction b s /\
  appliedEntry a = appliedEntry b /\
  (forall err, rejectionLine a err = rejectionLine b err) /\
  priority a = priority b.
Proof.
  destruct a as [x ta], b as [y tb]. cbn [queued_action]. intros ->.
  repeat split.
Qed.

Lemma applyEach_same_actions (l1 l2 : list QueuedAction) (s : GameState) :
  map queued_action l1 = map queued_action l2 ->
  applyEach l1 s = applyEach l2 s.
Proof.
  revert l2 s. induction l1 as [| a l1 IH]; intros [| b l2] s H;
    try discriminate H; [reflexivity |].
  cbn [map] in H. injection H as Hab Hrest.
  destruct (same_action a b s Hab) as (Ev & Ea & Ee & Er & _).
  cbn [applyEach]. rewrite Ev, Ea, Ee.
  destruct (validateActionAtApplyTime b s) as [| err].
  - rewrite (IH l2 _ Hrest). reflexivity.
  - rewrite (IH l2 _ Hrest), Er. reflexivity.
Qed.

Lemma insertByPriority_same_actions (a b : QueuedAction)
      (l1 l2 : list QueuedAction) :
  queued_action a = queued_action b ->
  map queued_action l1 = map queued_action l2 ->
  map queued_action (insertByPriority a l1)
  = map queued_action (insertByPriority b l2).
Proof.
  intros Hab. revert l2. induction l1 as [| x l1 IH]; intros [| y l2] H;
    try discriminate H.
  - cbn. rewrite Hab. reflexivity.
  - cbn [map] in H. injection H as Hxy Hrest.
    cbn [insertByPriority].
    destruct (same_action a b defaultState Hab) as (_ & _ & _ & _ & Pa).
    destruct (same_action x y defaultState Hxy) as (_ & _ & _ & _ & Px).
    rewrite Pa, Px.
    destruct (priority b <=? priority y); cbn [map].
    + rewrite Hab, Hxy, Hrest. reflexivity.
    + rewrite Hxy, (IH l2 Hrest). reflexivity.
Qed.

Lemma sortActionQueue_same_actions (l1 l2 : list QueuedAction) :
  map queued_action l1 = map queued_action l2 ->
  map queued_action (sortActionQueue l1)
  = map queued_action (sortActionQueue l2).
Proof.
  revert l2. induction l1 as [| a l1 IH]; intros [| b l2] H;
    try discriminate H; [reflexivity |].
  cbn [map] in H. injection H as Hab Hrest.
  cbn [sortActionQueue].
  apply insertByPriority_same_actions; [exact Hab | apply IH, Hrest].
Qed.

Lemma acceptedOf_Forall (P : QueuedAction -> Prop) (q : list QueuedAction)
      (s : GameState) :
  Forall P q -> Forall P (acceptedOf q s).
Proof.
  intros H. apply Forall_forall. intros x Hx.
  rewrite Forall_forall in H. apply H. eapply acceptedOf_incl, Hx.
Qed.

Lemma acceptedOf_sorted (q : list QueuedAction) (s : GameState) :
  StronglySorted byPriority q -> StronglySorted byPriority (acceptedOf q s).
Proof.
  intros H. revert s. induction H as [| a q Hq IH Ha]; intros s.
  - constructor.
  - cbn [acceptedOf]. destruct (validateActionAtApplyTime a s).
    + constructor; [apply IH | apply acceptedOf_Forall, Ha].
    + apply IH.
Qed.

(** Running only the accepted entries gives the same state and the same
    applied list, with nothing rejected. *)
Lemma applyEach_acceptedOf (q : list QueuedAction) (s : GameState) :
  applyEach (acceptedOf q s) s
  = mkOutcome (st (applyEach q s)) (applied (applyEach q s)) [].
Proof.
  revert s. induction q as [| a q IH]; intros s; [reflexivity |].
  cbn [acceptedOf applyEach].
  destruct (validateActionAtApplyTime a s) eqn:Hv.
  - cbn [applyEach]. rewrite Hv, IH. reflexivity.
  - rewrite IH. reflexivity.
Qed.

Lemma actionOfLog_appliedEntry (a : QueuedAction) :
  actionOfLog (appliedEntry a) = queued_action a.
Proof. destruct a as [[t p r c] n]. reflexivity. Qed.

Lemma sorted_is_fixed (l : list QueuedAction) :
  StronglySorted byPriority l -> sortActionQueue l = l.
Proof.
  intros H. symmetry. apply sortActionQueue_unique; [exact H | reflexivity].
Qed.

Lemma replay_outcome (e : Engine) :
  Forall admitted (actionQueue e) ->
  let e' := replay (state e) (fst (tickLogs e)) in
  state e' = state e /\
  applyEach (sortActionQueue (actionQueue e')) (state e)
  = mkOutcome
      (st (applyEach (sortActionQueue (actionQueue e)) (state e)))
      (applied (applyEach (sortActionQueue (actionQueue e)) (state e)))
      [].
Proof.
  intros Hq e'. subst e'. unfold replay, tickLogs, applyQueuedActions.
  cbn [fst snd applied_actions].
  set (sorted := sortActionQueue (actionQueue e)).
  set (acc := acceptedOf sorted (state e)).
  destruct (submitAll_queue
              (map actionOfLog (applied (applyEach sorted (state e))))
              (mkEngine (state e) [])) as (Es & Eq).
  split; [exact Es |].
  rewrite Eq. cbn [actionQueue state app]. clear Es Eq.
  rewrite applied_is_accepted. fold acc. rewrite map_map.
  assert (Hadm : Forall admitted acc)
    by (apply acceptedOf_Forall, sortActionQueue_admitted, Hq).
  assert (Hkeep : filter (fun a => is_valid (validateActionParams a))
                         (map (fun x => actionOfLog (appliedEntry x)) acc)
                  = map queued_action acc).
  { clear - Hadm. induction Hadm as [| a l Ha Hl IH]; [reflexivity |].
    cbn [map filter]. rewrite actionOfLog_appliedEntry.
    unfold admitted in Ha. apply validateActionParams_iff in Ha.
    rewrite Ha. cbn [is_valid]. rewrite IH. reflexivity. }
  rewrite Hkeep, map_map.
  assert (Hsame : map queued_action
                      (map (fun x => mkQueued (queued_action x)
                                              (turn (state e))) acc)
                  = map queued_action acc).
  { rewrite map_map. reflexivity. }
  pose proof (sortActionQueue_same_actions _ _ Hsame) as Hsorted.
  rewrite (sorted_is_fixed acc) in Hsorted
    by (apply acceptedOf_sorted, sortActionQueue_sorted).
  rewrite (applyEach_same_actions _ _ (state e) Hsorted).
  unfold acc. rewrite applyEach_acceptedOf, applied_is_accepted.
  reflexivity.
Qed.

(** X11.  The applied-actions record of a tick is enough to repeat it: a
    fresh engine put in the state the tick started from, to which the
    recorded actions are submitted again in the recorded order, accepts
    them all, rejects none at its tick, ends in the same state and logs
    the same two records. *)
Theorem replay_reproduces_tick (e : Engine)
        (Hq : Forall admitted (actionQueue e)) :
  let e' := replay (state e) (fst (tickLogs e)) in
  List.length (actionQueue e') = List.length (tickApplied e) /\
  tickRejected e' = [] /\
  state (tick e') = state (tick e) /\
  tickLogs e' = tickLogs e.
Proof.
  intros e'.
  destruct (replay_outcome e Hq) as (Es & Eo). fold e' in Es, Eo.
  assert (Et : state (tick e') = state (tick e)).
  { rewrite !tick_state, !beforeClamp_unfold, Es, Eo. reflexivity. }
  split; [| split; [| split; [exact Et |]]].
  - pose proof (applyEach_lengths (sortActionQueue (actionQueue e'))
                                  (state e)) as Hl.
    rewrite Eo in Hl. cbn [applied rejected List.length] in Hl.
    rewrite (Permutation_length (sortActionQueue_perm (actionQueue e')))
      in Hl.
    unfold tickApplied, applyQueuedActions. cbn [snd]. lia.
  - unfold tickRejected. rewrite Es, Eo. reflexivity.
  - unfold tickLogs, applyQueuedActions. cbn [snd].
    rewrite Et, Es, Eo. reflexivity.
Qed.

Lemma replay_reproduces_tick_witness :
  let e := submit (buyFood 3)
             (submit (assignJobs 1 1 1 1)
                (submit (hire 2) (constructor None))) in
  let e' := replay (state e) (fst (tickLogs e)) in
  Forall admitted (actionQueue e) /\
  List.length (actionQueue e') = 2%nat /\
  state (tick e') = state (tick e).
Proof.
  assert (Hq : Forall admitted
                 (actionQueue
                    (submit (buyFood 3)
                       (submit (assignJobs 1 1 1 1)
                          (submit (hire 2) (constructor None)))))).
  { repeat (constructor; [apply validateActionParams_iff; reflexivity |]).
    constructor. }
  destruct (replay_reproduces_tick _ Hq) as (Hl & _ & Hs & _).
  split; [exact Hq | split; [exact Hl | exact Hs]].
Defined.

(** * Auto-tick *)

Lemma remove_only (h : nat) : remove Nat.eq_dec h [h] = [].
Proof.
  cbn [remove]. destruct (Nat.eq_dec h h) as [_ | N];
    [reflexivity | contradiction N; reflexivity].
Qed.

Lemma startAutoTick_consistent (r : Runtime) :
  timerConsistent r -> timerConsistent (startAutoTick r).
Proof.
  unfold timerConsistent, startAutoTick. intros (Hr & He).
  destruct (autoTickEnabled r) eqn:Ea;
    [split; [exact Hr | rewrite Ea; exact He] |].
  destruct (tickInterval r); [discriminate He |].
  cbn. rewrite Hr. split; reflexivity.
Qed.

Lemma stopAutoTick_consistent (r : Runtime) :
  timerConsistent r -> timerConsistent (stopAutoTick r).
Proof.
  unfold timerConsistent, stopAutoTick. intros (Hr & He).
  destruct (tickInterval r) as [h |] eqn:Et.
  - cbn. rewrite Hr, remove_only. split; reflexivity.
  - rewrite Et. split; assumption.
Qed.

Lemma reachableRuntime_consistent (r : Runtime) :
  reachableRuntime r -> timerConsistent r.
Proof.
  induction 1 as [| a r Hr IH | r Hr IH | r Hr IH | r Hr IH | h r Hr IH].
  - split; reflexivity.
  - exact IH.
  - exact IH.
  - apply startAutoTick_consistent, IH.
  - apply stopAutoTick_consistent, IH.
  - unfold timerFires. destruct (existsb _ _); exact IH.
Qed.

Lemma startAutoTick_on (r : Runtime) :
  timerConsistent r ->
  autoTickEnabled (startAutoTick r) = true /\
  List.length (running (timers (startAutoTick r))) = 1%nat /\
  engine (startAutoTick r) = engine r.
Proof.
  unfold timerConsistent, startAutoTick. intros (Hr & He).
  destruct (autoTickEnabled r) eqn:Ea.
  - destruct (tickInterval r); [| discriminate He].
    rewrite Hr. repeat split. exact Ea.
  - destruct (tickInterval r); [discriminate He |].
    cbn. rewrite Hr. repeat split.
Qed.

Lemma stopAutoTick_off (r : Runtime) :
  timerConsistent r ->
  autoTickEnabled (stopAutoTick r) = false /\
  running (timers (stopAutoTick r)) = [] /\
  engine (stopAutoTick r) = engine r.
Proof.
  unfold timerConsistent, stopAutoTick. intros (Hr & He).
  destruct (tickInterval r) as [h |].
  - cbn. rewrite Hr, remove_only. repeat split.
  - repeat split; assumption.
Qed.

(** X12.  However enqueueing, ticking, starting, stopping and timer
    callbacks are mixed, the engine never has more than one interval timer
    running, and it has one exactly when [isAutoTickEnabled] says so.
    Starting always ends with one timer and the flag on, and a second
    start changes nothing; stopping (or shutting down) always ends with no
    timer and the flag off; neither touches the state or the queue. *)
Theorem auto_tick_has_one_timer (r : Runtime) (H : reachableRuntime r) :
  (List.length (running (timers r)) <= 1)%nat /\
  (isAutoTickEnabled r = true <-> running (timers r) <> []) /\
  (isAutoTickEnabled (startAutoTick r) = true /\
   List.length (running (timers (startAutoTick r))) = 1%nat /\
   engine (startAutoTick r) = engine r /\
   startAutoTick (startAutoTick r) = startAutoTick r) /\
  (isAutoTickEnabled (stopAutoTick r) = false /\
   running (timers (stopAutoTick r)) = [] /\
   engine (stopAutoTick r) = engine r /\
   stopAutoTick (stopAutoTick r) = stopAutoTick r) /\
  running (timers (shutdown r)) = [].
Proof.
  pose proof (reachableRuntime_consistent r H) as Hc.
  destruct (startAutoTick_on r Hc) as (S1 & S2 & S3).
  destruct (stopAutoTick_off r Hc) as (T1 & T2 & T3).
  destruct Hc as (Hr & He).
  split; [| split; [| split; [| split]]].
  - rewrite Hr. destruct (tickInterval r); cbn; lia.
  - unfold isAutoTickEnabled. rewrite Hr, He.
    destruct (tickInterval r); split; try discriminate; try reflexivity.
    intros N. contradiction N. reflexivity.
  - split; [exact S1 | split; [exact S2 | split; [exact S3 |]]].
    unfold startAutoTick at 1. rewrite S1. reflexivity.
  - split; [exact T1 | split; [exact T2 | split; [exact T3 |]]].
    unfold stopAutoTick at 1.
    destruct (tickInterval (stopAutoTick r)) eqn:E; [| reflexivity].
    unfold stopAutoTick in E. destruct (tickInterval r) eqn:E'.
    + discriminate E.
    + rewrite E' in E. discriminate E.
  - exact T2.
Qed.

Lemma auto_tick_has_one_timer_witness :
  let r := startAutoTick (stopAutoTick (startAutoTick newRuntime)) in
  reachableRuntime r /\
  (List.length (running (timers r)) <= 1)%nat /\
  running (timers (stopAutoTick r)) = [].
Proof.
  assert (Hr : reachableRuntime
                 (startAutoTick (stopAutoTick (startAutoTick newRuntime))))
    by (apply run_start, run_stop, run_start, run_new).
  destruct (auto_tick_has_one_timer _ Hr) as (H1 & _ & _ & (_ & H2 & _) & _).
  split; [exact Hr | split; [exact H1 | exact H2]].
Defined.

(** X13.  The auto-tick tools of the dispatcher tell the truth: the start
    tool reports success exactly when auto-tick was off and leaves it on
    either way; the stop tool reports success exactly when it was on and
    leaves it off either way; each reports "already running" or "was not
    running" otherwise. *)
Theorem auto_tick_tools_report (r : Runtime) (H : reachableRuntime r) :
  (success (snd (callStartAutoTick r)) = negb (isAutoTickEnabled r) /\
   isAutoTickEnabled (fst (callStartAutoTick r)) = true /\
   (isAutoTickEnabled r = true ->
    fst (callStartAutoTick r) = r /\
    message (snd (callStartAutoTick r)) = "Auto-tick is already running")) /\
  (success (snd (callStopAutoTick r)) = isAutoTickEnabled r /\
   isAutoTickEnabled (fst (callStopAutoTick r)) = false /\
   (isAutoTickEnabled r = false ->
    fst (callStopAutoTick r) = r /\
    message (snd (callStopAutoTick r)) = "Auto-tick was not running")).
Proof.
  pose proof (reachableRuntime_consistent r H) as Hc.
  destruct (startAutoTick_on r Hc) as (S1 & _).
  destruct (stopAutoTick_off r Hc) as (T1 & _).
  destruct Hc as (Hr & He).
  unfold callStartAutoTick, callStopAutoTick, isAutoTickEnabled.
  cbn [fst snd success message]. rewrite S1, T1.
  split.
  - split; [apply andb_true_r | split; [reflexivity |]].
    intros Ha. unfold startAutoTick. rewrite Ha. split; reflexivity.
  - split; [apply andb_true_r | split; [reflexivity |]].
    intros Ha. unfold stopAutoTick. rewrite Ha in *.
    destruct (tickInterval r); [discriminate He | split; reflexivity].
Qed.

Lemma auto_tick_tools_report_witness :
  let r := fst (callStartAutoTick newRuntime) in
  reachableRuntime r /\
  success (snd (callStartAutoTick r)) = false /\
  success (snd (callStopAutoTick r)) = true.
Proof.
  assert (Hr : reachableRuntime (fst (callStartAutoTick newRuntime)))
    by (apply run_start, run_new).
  destruct (auto_tick_tools_report _ Hr) as ((H1 & _) & (H2 & _)).
  split; [exact Hr | split; [exact H1 | exact H2]].
Defined.

(** * The front ends *)





(** X15.  Each enqueue tool registered with [registerTool] answers
    [success: true] whatever the engine said and never changes the game
    state.  The action is queued, stamped with the current turn, exactly
    when its numbers are zero or more, which the declared input schema
    (positive counts, non-negative job numbers) guarantees; otherwise the
    engine is left as it was although success is reported. *)
Theorem enqueue_tools_always_succeed
        (n m f l b : Z) (by_ : string) (id : option string) (e : Engine) :
  let queuedAs (a : Action) (e' : Engine) :=
    e' = mkEngine (state e)
                  (actionQueue e ++ [mkQueued a (turn (state e))]) in
  let hireA := mkAction "Hire"
                 (mkParams absent absent absent absent (Int n) absent)
                 (Some by_) id in
  let fireA := mkAction "Fire"
                 (mkParams absent absent absent absent (Int n) absent)
                 (Some by_) id in
  let buyA := mkAction "BuyFood"
                (mkParams absent absent absent absent absent (Int n))
                (Some by_) id in
  let assignA := mkAction "AssignJobs"
                   (mkParams (Int m) (Int f) (Int l) (Int b) absent absent)
                   (Some by_) id in
  let upgradeA := mkAction "StartUpgrade"
                    (mkParams absent absent absent absent absent absent)
                    (Some by_) id in
  (success (snd (toolEnqueueHire n by_ id e)) = true /\
   success (snd (toolEnqueueFire n by_ id e)) = true /\
   success (snd (toolEnqueueBuyFood n by_ id e)) = true /\
   success (snd (toolEnqueueAssignJobs m f l b by_ id e)) = true /\
   success (snd (toolEnqueueStartUpgrade by_ id e)) = true) /\
  (0 <= n ->
   queuedAs hireA (fst (toolEnqueueHire n by_ id e)) /\
   queuedAs fireA (fst (toolEnqueueFire n by_ id e)) /\
   queuedAs buyA (fst (toolEnqueueBuyFood n by_ id e))) /\
  (n < 0 ->
   fst (toolEnqueueHire n by_ id e) = e /\
   fst (toolEnqueueFire n by_ id e) = e /\
   fst (toolEnqueueBuyFood n by_ id e) = e) /\
  (0 <= m -> 0 <= f -> 0 <= l -> 0 <= b ->
   queuedAs assignA (fst (toolEnqueueAssignJobs m f l b by_ id e))) /\
  (m < 0 \/ f < 0 \/ l < 0 \/ b < 0 ->
   fst (toolEnqueueAssignJobs m f l b by_ id e) = e) /\
  queuedAs upgradeA (fst (toolEnqueueStartUpgrade by_ id e)).
Proof.
  cbn zeta.
  unfold toolEnqueueHire, toolEnqueueFire, toolEnqueueBuyFood,
    toolEnqueueAssignJobs, toolEnqueueStartUpgrade, enqueueAction,
    validateActionParams.
  cbn [fst snd success type params kindOf String.eqb Ascii.eqb Bool.eqb
       p_miners p_farmers p_lumberjacks p_builders p_count p_amount
       lt0 isInteger absent negb orb andb].
  split; [repeat split |].
  split; [| split; [| split; [| split]]].
  - intros Hn. destruct (Z.ltb_spec n 0); [lia |]. repeat split.
  - intros Hn. destruct (Z.ltb_spec n 0); [| lia]. repeat split.
  - intros Hm Hf Hl Hb.
    destruct (Z.ltb_spec m 0); [lia |]. destruct (Z.ltb_spec f 0); [lia |].
    destruct (Z.ltb_spec l 0); [lia |]. destruct (Z.ltb_spec b 0); [lia |].
    reflexivity.
  - intros H.
    destruct (Z.ltb_spec m 0); [reflexivity |].
    destruct (Z.ltb_spec f 0); [reflexivity |].
    destruct (Z.ltb_spec l 0); [reflexivity |].
    destruct (Z.ltb_spec b 0); [reflexivity | lia].
  - reflexivity.
Qed.

Lemma enqueue_tools_always_succeed_witness :
  actionQueue (fst (toolEnqueueHire 2 "Accountant" None (constructor None)))
  = [mkQueued (mkAction "Hire"
                 (mkParams absent absent absent absent (Int 2) absent)
                 (Some "Accountant") None) 0] /\
  fst (toolEnqueueHire (-2) "Accountant" None (constructor None))
  = constructor None.
Proof.
  destruct (enqueue_tools_always_succeed 2 0 0 0 0 "Accountant" None
              (constructor None)) as (_ & Hok & _).
  destruct (Hok ltac:(lia)) as (Hh & _).
  destruct (enqueue_tools_always_succeed (-2) 0 0 0 0 "Accountant" None
              (constructor None)) as (_ & _ & Hbad & _).
  destruct (Hbad ltac:(lia)) as (Hb & _).
  split; [rewrite Hh; reflexivity | exact Hb].
Defined.

(** * Food, workers, wood and progress over a whole tick *)

Lemma clampResources_food (s : GameState) :
  food (clampResources s) = Z.max 0 (food s) /\
  wood (clampResources s) = Z.max 0 (wood s).
Proof. split; reflexivity. Qed.

(** X16.  What a tick leaves of food and workers is decided by the state
    the actions left: with [fed] the food after production less one unit
    per worker, the tick ends with [max(0, fed)] food, and with the same
    workers when [fed] is zero or more, otherwise with [ceil(-fed / 2)]
    fewer (never below zero).  Construction and taxes play no part. *)
Theorem tick_food_and_workers (e : Engine) :
  let s1 := state (fst (applyQueuedActions e)) in
  let fed := food s1 + farmers (jobs s1) * 3 - workers s1 in
  food (state (tick e)) = Z.max 0 fed /\
  workers (state (tick e))
  = (if 0 <=? fed then workers s1
     else Z.max 0 (workers s1 - ceilHalf (- fed))).
Proof.
  intros s1 fed. rewrite tick_state, beforeClamp_unfold.
  change (st (applyEach (sortActionQueue (actionQueue e)) (state e)))
    with s1.
  set (s3 := applyProduction (set_turn (turn (state e) + 1) s1)).
  destruct (applyConstruction_frame s3) as (_ & Ef & Ew & _).
  assert (Ef3 : food s3 = food s1 + farmers (jobs s1) * 3) by reflexivity.
  assert (Ew3 : workers s3 = workers s1) by reflexivity.
  set (s4 := applyConstruction s3) in *.
  destruct (clampResources_food (applyTaxes (applyUpkeep s4))) as (Ec & _).
  destruct (clampResources_frame (applyTaxes (applyUpkeep s4)))
    as (Ecw & _).
  destruct (applyTaxes_frame (applyUpkeep s4)) as (Etw & _ & _ & Etf & _).
  rewrite Ec, Ecw, Etw, Etf, applyUpkeep_eq.
  rewrite Ef, Ew, Ef3, Ew3. fold fed.
  destruct (Z.leb_spec 0 fed); cbn [food workers]; split;
    try reflexivity; lia.
Qed.

(** X17.  In a reachable engine, a tick that starts and ends with the
    upgrade active never loses progress, and the progress it gains is
    paid one wood each: the wood at the end is the wood at the start,
    plus one per lumberjack as assigned after the actions, less the
    progress gained. *)
Theorem progress_is_paid_in_wood (e : Engine) (p : Z)
        (H : reachable e)
        (Hactive : active (upgradeInProgress (state e)) = true)
        (Hprogress : progress (upgradeInProgress (state e)) = Some p)
        (Hstill : active (upgradeInProgress (state (tick e))) = true) :
  let s1 := state (fst (applyQueuedActions e)) in
  exists p' : Z,
    progress (upgradeInProgress (state (tick e))) = Some p' /\
    p <= p' /\
    wood (state (tick e))
    = wood (state e) + lumberjacks (jobs s1) * 1 - (p' - p).
Proof.
  intros s1.
  destruct (beforeClamp_sound e (reachable_sound e H)) as (Hres & _).
  rewrite tick_state, (clampResources_idle _ Hres) in *.
  rewrite beforeClamp_unfold in *.
  change (st (applyEach (sortActionQueue (actionQueue e)) (state e)))
    with s1 in *.
  set (s3 := applyProduction (set_turn (turn (state e) + 1) s1)) in *.
  assert (Eu3 : upgradeInProgress s3 = upgradeInProgress (state e))
    by exact (applyEach_keeps_active_upgrade _ _ Hactive).
  assert (Ew3 : wood s3 = wood (state e) + lumberjacks (jobs s1) * 1).
  { destruct (applyEach_frame (sortActionQueue (actionQueue e)) (state e))
      as (_ & Ew & _).
    change (wood s3) with (wood s1 + lumberjacks (jobs s1) * 1).
    unfold s1, applyQueuedActions. cbn [fst state]. rewrite Ew.
    reflexivity. }
  destruct (applyTaxes_frame (applyUpkeep (applyConstruction s3)))
    as (_ & _ & Etu & _ & Etw & _).
  destruct (applyUpkeep_frame (applyConstruction s3))
    as (_ & Euw & _ & Euu & _).
  rewrite Etu, Euu in *. rewrite Etw, Euw.
  rewrite applyConstruction_eq in *.
  rewrite Eu3, Hactive, Hprogress, Ew3 in *.
  cbn [option_map] in *.
  destruct (geq _ _); [discriminate Hstill |].
  cbn [upgradeInProgress progress wood].
  eexists. split; [reflexivity | split; lia].
Qed.

Lemma progress_is_paid_in_wood_witness :
  let e := tick (submit (assignJobs 1 1 1 2)
                   (tick (submit startUpgrade (constructor None)))) in
  reachable e /\
  exists p' : Z,
    progress (upgradeInProgress (state (tick e))) = Some p' /\ 2 <= p'.
Proof.
  assert (Hr : reachable
                 (tick (submit (assignJobs 1 1 1 2)
                          (tick (submit startUpgrade (constructor None))))))
    by (unfold submit;
        apply reach_tick, reach_enqueue, reach_tick, reach_enqueue,
              reach_new).
  split; [exact Hr |].
  destruct (progress_is_paid_in_wood _ 2 Hr eq_refl eq_refl eq_refl)
    as (p' & Hp & Hle & _).
  exists p'. split; [exact Hp | exact Hle].
Defined.

(** * Instances *)

Lemma tick_accounts_for_queue_witness :
  let e := submit (buyFood 100) (submit (hire 1) (constructor None)) in
  (List.length (tickApplied e) + List.length (tickRejected e))%nat = 2%nat /\
  (In (appliedEntry (mkQueued (hire 1) 0)) (tickApplied e) \/
   exists err, In (rejectionLine (mkQueued (hire 1) 0) err)
                  (tickRejected e)).
Proof.
  destruct (tick_accounts_for_queue
              (submit (buyFood 100) (submit (hire 1) (constructor None))))
    as (Hlen & _ & Hall).
  split; [exact Hlen |].
  apply Hall. left. reflexivity.
Defined.

Lemma castle_level_steps_witness :
  let e := mkEngine (mkState 5 0 20 1 2 0 (mkJobs 0 1 0 1)
                             (mkUpgrade true (Some 1) (Some 11) (Some 12)))
                    [] in
  castleLevel (state (tick e)) = castleLevel (state e) + 1.
Proof.
  destruct (castle_level_steps
              (mkEngine (mkState 5 0 20 1 2 0 (mkJobs 0 1 0 1)
                                 (mkUpgrade true (Some 1) (Some 11)
                                            (Some 12)))
                        [])) as (_ & _ & Hup).
  exact (Hup eq_refl eq_refl).
Defined.

Lemma submissions_queue_in_order_witness :
  actionQueue (submitAll [hire 1; hire (-1); buyFood 2] (constructor None))
  = [mkQueued (hire 1) 0; mkQueued (buyFood 2) 0].
Proof.
  destruct (submissions_queue_in_order [hire 1; hire (-1); buyFood 2]
                                       (constructor None)) as (_ & Hq & _).
  rewrite Hq. reflexivity.
Defined.
